(** * terra_notebook_utils.workflows: cost estimation for workflow metadata

    A shallow embedding of [terra_notebook_utils/workflows.py] and the
    properties of its specification.

    Conventions of the embedding:
    - Python exceptions are values of [exn]; a computation that may raise
      returns [result A = exn + A].
    - Python [float]s are modelled by the numbers they denote ([Q], plus the
      two infinities and NaN): rounding, overflow and underflow are outside
      the model.
    - Python [str] is [string] restricted to ASCII.
    - JSON documents are values of [json]; a [dict] is an association list
      in insertion order, looked up by first match. *)

From Stdlib Require Import ZArith QArith Ascii String List Lia Bool.
From stdpp Require Import base option list strings gmap.

Local Open Scope string_scope.
Local Open Scope list_scope.

(** ** Exceptions and the error monad *)

Inductive exn : Type :=
| KeyError (msg : string)
| TNUCostException (msg : string)
| ValueError
| TypeError
| IndexError
| AttributeError
| OverflowError
| HTTPError (status : Z).

Definition result (A : Type) : Type := (exn + A)%type.

Definition raise {A} (e : exn) : result A := inl e.

#[global] Instance result_ret : MRet result := fun A a => inr a.
#[global] Instance result_bind : MBind result := fun A B k m =>
  match m with
  | inl e => inl e
  | inr a => k a
  end.

(** ** Python strings *)

Module Str.

Definition is_digit (c : ascii) : bool :=
  (48 <=? nat_of_ascii c)%nat && (nat_of_ascii c <=? 57)%nat.

Definition digit_val (c : ascii) : Z := Z.of_nat (nat_of_ascii c) - 48.

(** [str.isspace] on ASCII: tab, LF, VT, FF, CR, FS, GS, RS, US, space. *)
Definition is_space (c : ascii) : bool :=
  let n := nat_of_ascii c in
  ((9 <=? n)%nat && (n <=? 13)%nat) || ((28 <=? n)%nat && (n <=? 32)%nat).

Definition lower (c : ascii) : ascii :=
  let n := nat_of_ascii c in
  if (65 <=? n)%nat && (n <=? 90)%nat then ascii_of_nat (n + 32) else c.

Fixpoint lower_str (s : string) : string :=
  match s with
  | EmptyString => EmptyString
  | String c s' => String (lower c) (lower_str s')
  end.

Fixpoint rev_acc (s acc : string) : string :=
  match s with
  | EmptyString => acc
  | String c s' => rev_acc s' (String c acc)
  end.

Definition rev (s : string) : string := rev_acc s EmptyString.

(** [s.startswith(p)] *)
Fixpoint startswith (s p : string) {struct p} : bool :=
  match p, s with
  | EmptyString, _ => true
  | String a p', String b s' => Ascii.eqb a b && startswith s' p'
  | String _ _, EmptyString => false
  end.

(** [s.endswith(p)] *)
Definition endswith (s p : string) : bool := startswith (rev s) (rev p).

(** [s.replace(old, new)] for a non-empty [old]: occurrences are replaced
    from left to right without overlap.  [skip] counts the characters of
    the current occurrence that remain to be dropped. *)
Fixpoint replace_from (old new : string) (skip : nat) (s : string) : string :=
  match s with
  | EmptyString => EmptyString
  | String c s' =>
      match skip with
      | S k => replace_from old new k s'
      | O =>
          if startswith s old
          then new +:+ replace_from old new (String.length old - 1) s'
          else String c (replace_from old new 0 s')
      end
  end.

Definition replace (s old new : string) : string := replace_from old new 0 s.

Definition cons_head (c : ascii) (l : list string) : list string :=
  match l with
  | [] => [String c EmptyString]
  | h :: t => String c h :: t
  end.

(** [s.split(sep, maxsplit)] for a one-character [sep]: at most [n]
    splits, so at most [n + 1] parts. *)
Fixpoint splitn (sep : ascii) (n : nat) (s : string) {struct s} : list string :=
  match s with
  | EmptyString => [EmptyString]
  | String c s' =>
      match n with
      | O => [s]
      | S k =>
          if Ascii.eqb c sep then EmptyString :: splitn sep k s'
          else cons_head c (splitn sep n s')
      end
  end.

(** [s.split(sep)] for a one-character [sep]. *)
Definition split (sep : ascii) (s : string) : list string :=
  splitn sep (String.length s) s.

(** [s.split()]: the maximal runs of non-whitespace characters.
    [cur] is the run being read, reversed. *)
Fixpoint words_from (cur : string) (s : string) : list string :=
  match s with
  | EmptyString =>
      match cur with EmptyString => [] | _ => [rev cur] end
  | String c s' =>
      if is_space c
      then match cur with
           | EmptyString => words_from EmptyString s'
           | _ => rev cur :: words_from EmptyString s'
           end
      else words_from (String c cur) s'
  end.

Definition words (s : string) : list string := words_from EmptyString s.

(** The whitespace that [int] and [float] skip around a numeral: tab, LF,
    VT, FF, CR and space; unlike [str.isspace], not FS, GS, RS and US. *)
Definition is_c_space (c : ascii) : bool :=
  let n := nat_of_ascii c in
  ((9 <=? n)%nat && (n <=? 13)%nat) || (n =? 32)%nat.

Fixpoint lstrip (s : string) : string :=
  match s with
  | String c s' => if is_c_space c then lstrip s' else s
  | EmptyString => EmptyString
  end.

(** [s] without the whitespace that [int] and [float] skip at its two
    ends. *)
Definition strip (s : string) : string := rev (lstrip (rev (lstrip s))).

(** The characters of [s] before the first one satisfying [stop], and the
    rest of [s] from that character on. *)
Fixpoint span_until (stop : ascii -> bool) (s : string) : string * string :=
  match s with
  | EmptyString => (EmptyString, EmptyString)
  | String c s' =>
      if stop c then (EmptyString, s)
      else let '(a, b) := span_until stop s' in (String c a, b)
  end.

Fixpoint all_chars (p : ascii -> bool) (s : string) : bool :=
  match s with
  | EmptyString => true
  | String c s' => p c && all_chars p s'
  end.

(** [ch not in s] *)
Definition no_char (ch : ascii) (s : string) : bool :=
  all_chars (fun x => negb (Ascii.eqb x ch)) s.

(** The value of a string of decimal digits, read after [acc]. *)
Fixpoint digits_val (acc : Z) (s : string) : Z :=
  match s with
  | EmptyString => acc
  | String c s' => digits_val (10 * acc + digit_val c) s'
  end.

End Str.

(** ** Python numbers *)

(** A [float] by the number it denotes. *)
Inductive float : Type :=
| Finite (q : Q)
| Infinity (negative : bool)
| NaN.

Module Float.

Definition zero : float := Finite 0.
Definition one : float := Finite 1.

(** [x + y] *)
Definition add (x y : float) : float :=
  match x, y with
  | Finite a, Finite b => Finite (Qred (a + b))
  | NaN, _ | _, NaN => NaN
  | Infinity a, Infinity b => if Bool.eqb a b then Infinity a else NaN
  | Infinity a, Finite _ | Finite _, Infinity a => Infinity a
  end.

(** [x / n] for a positive integer constant [n] *)
Definition div_pos (x : float) (n : positive) : float :=
  match x with
  | Finite q => Finite (Qred (q / inject_Z (Z.pos n)))
  | _ => x
  end.

(** [int(x)]: truncation towards zero *)
Definition to_int (x : float) : result Z :=
  match x with
  | Finite q => mret (Z.quot (Qnum q) (Z.pos (Qden q)))
  | Infinity _ => raise OverflowError
  | NaN => raise ValueError
  end.

End Float.

Module Num.
Import Str.

(** A run of decimal digits in which single underscores may separate
    digits: its value after [acc] and the number of its digits after [n].
    [prev] tells whether the previous character was a digit. *)
Fixpoint digit_run (prev : bool) (acc : Z) (n : nat) (s : string) : option (Z * nat) :=
  match s with
  | EmptyString => if prev then Some (acc, n) else None
  | String c s' =>
      if is_digit c then digit_run true (10 * acc + digit_val c) (S n) s'
      else if Ascii.eqb c "_" && prev then digit_run false acc n s'
      else None
  end.

Definition digits (s : string) : option Z := fst <$> digit_run false 0 0 s.

(** An optional sign: [true] for [-]. *)
Definition split_sign (s : string) : bool * string :=
  match s with
  | String "-" r => (true, r)
  | String "+" r => (false, r)
  | _ => (false, s)
  end.

(** [int(s)] for a string, base 10 *)
Definition int_of_str (s : string) : result Z :=
  let '(minus, body) := split_sign (strip s) in
  match digits body with
  | Some n => mret (if minus then - n else n)%Z
  | None => raise ValueError
  end.

(** A digit run that may be empty. *)
Definition opt_run (s : string) : option (Z * nat) :=
  match s with
  | EmptyString => Some (0%Z, O)
  | _ => digit_run false 0 0 s
  end.

(** The mantissa [i], [i.], [.f] or [i.f]: its value as a fraction. *)
Definition mantissa (s : string) : option Q :=
  let '(ip, rest) := span_until (Ascii.eqb ".") s in
  match rest with
  | EmptyString => (fun n => inject_Z n) <$> digits ip
  | String _ fp =>
      match ip, fp with
      | EmptyString, EmptyString => None
      | _, _ =>
          '(i, _) ← opt_run ip;
          '(f, k) ← opt_run fp;
          Some (Qred (inject_Z i + inject_Z f / inject_Z (10 ^ Z.of_nat k)))
      end
  end.

(** The exponent part, [e] included; the empty string stands for none. *)
Definition exponent (s : string) : option Z :=
  match s with
  | EmptyString => Some 0%Z
  | String _ r =>
      let '(minus, body) := split_sign r in
      (fun n => if minus then - n else n)%Z <$> digits body
  end.

Definition scale (q : Q) (e : Z) : Q :=
  if (0 <=? e)%Z then Qred (q * inject_Z (10 ^ e))
  else Qred (q / inject_Z (10 ^ (- e))).

Definition is_e (c : ascii) : bool := Ascii.eqb c "e" || Ascii.eqb c "E".

Definition decimal (s : string) : option Q :=
  let '(m, e) := span_until is_e s in
  q ← mantissa m;
  x ← exponent e;
  Some (scale q x).

(** [float(s)] for a string *)
Definition float_of_str (s : string) : result float :=
  let '(minus, body) := split_sign (strip s) in
  let low := lower_str body in
  if String.eqb low "inf" || String.eqb low "infinity" then mret (Infinity minus)
  else if String.eqb low "nan" then mret NaN
  else match decimal body with
       | Some q => mret (Finite (if minus then Qred (- q) else q))
       | None => raise ValueError
       end.

(** The characters that a string accepted by [int_of_str] or by
    [float_of_str] can hold. *)
Definition numeral_char (c : ascii) : bool :=
  is_c_space c || is_digit c
  || existsb (Ascii.eqb (lower c))
       ["_"; "+"; "-"; "."; "e"; "i"; "n"; "f"; "t"; "y"; "a"]%char.

End Num.


(** ** JSON documents *)

#[warnings="-register-all"] Inductive json : Type :=
| JNull
| JBool (b : bool)
| JInt (n : Z)
| JFloat (x : float)
| JStr (s : string)
| JList (l : list json)
| JObj (kvs : list (string * json)).

(** A Python [dict] with string keys, as parsed from a JSON object. *)
Abbreviation dict := (list (string * json)).

(** [d.get(k)]: [None] when [k] is not a key of [d]. *)
Fixpoint dict_get (k : string) (d : dict) : option json :=
  match d with
  | [] => None
  | (k', v) :: d' => if String.eqb k k' then Some v else dict_get k d'
  end.

(** [k in d] *)
Definition has_key (k : string) (d : dict) : bool :=
  match dict_get k d with Some _ => true | None => false end.

(** [int(v)] *)
Definition py_int (v : json) : result Z :=
  match v with
  | JBool b => mret (if b then 1 else 0)%Z
  | JInt n => mret n
  | JFloat x => Float.to_int x
  | JStr s => Num.int_of_str s
  | JNull | JList _ | JObj _ => raise TypeError
  end.

(** [bool(n)] for an integer *)
Definition py_bool (n : Z) : bool := negb (n =? 0)%Z.

(** [v == s] for a string literal [s] *)
Definition eq_str (v : json) (s : string) : bool :=
  match v with
  | JStr s' => String.eqb s' s
  | _ => false
  end.

(** The receiver of a [str] method: any other value has no such attribute. *)
Definition str_method (v : json) : result string :=
  match v with
  | JStr s => mret s
  | _ => raise AttributeError
  end.

(** A [str] argument of a built-in that checks its argument's type. *)
Definition str_arg (v : json) : result string :=
  match v with
  | JStr s => mret s
  | _ => raise TypeError
  end.

(** [l[i]] *)
Definition py_index {A} (l : list A) (i : nat) : result A :=
  match l !! i with
  | Some a => mret a
  | None => raise IndexError
  end.

(** ** [terra_notebook_utils.utils] *)

Module utils.

(** Modelled from the spec: the dotted-path lookup of [js_get], whose
    source ([terra_notebook_utils/utils.py]) is missing; the value under
    the path [segments], or [None] when a segment is absent. *)
Fixpoint lookup_path (segments : list string) (v : json) : option json :=
  match segments with
  | [] => Some v
  | k :: rest =>
      match v with
      | JObj kvs =>
          match dict_get k kvs with
          | Some v' => lookup_path rest v'
          | None => None
          end
      | _ => None
      end
  end.

(** Modelled from the spec: [js_get] of [terra_notebook_utils/utils.py],
    whose source is missing.  It "reads a dotted path out
    of nested key-value metadata, returning a provided default if any
    segment is absent, and failing with a required-field-missing error if
    no default was given and the path is absent".  The error is the
    [KeyError] that [estimate_workflow_cost] catches; its argument names
    the path. *)
Definition js_get (path : string) (data : dict) (default : option json) : result json :=
  match lookup_path (Str.split "." path) (JObj data) with
  | Some v => mret v
  | None =>
      match default with
      | Some d => mret d
      | None => raise (KeyError ("'" +:+ path +:+ "' not found"))
      end
  end.

(** Modelled from the spec: the traversal of [concurrent_recursion] of
    [terra_notebook_utils/utils.py], whose source is missing.  It "drives bounded-concurrency breadth-first expansion, invoking
    [expandFn(id)] for each newly discovered identifier and feeding its
    returned identifiers back into the frontier, until no new identifiers
    remain".  The model runs the expansions one after the other, the
    frontier being a queue; [recurse] acts on a state [S], and an exception
    it raises ends the traversal.  [seen] holds the identifiers already
    expanded.  The traversal need not end: [None] stands for a run that
    [fuel] steps do not finish. *)
Fixpoint concurrent_recursion_from {S : Type} (fuel : nat)
    (recurse : string -> S -> result (gset string) * S)
    (seen : gset string) (frontier : list string) (s : S) : option (result unit * S) :=
  match fuel with
  | O => None
  | Datatypes.S fuel' =>
      match frontier with
      | [] => Some (inr tt, s)
      | x :: rest =>
          if decide (x ∈ seen) then concurrent_recursion_from fuel' recurse seen rest s
          else
            match recurse x s with
            | (inl e, s') => Some (inl e, s')
            | (inr found, s') =>
                concurrent_recursion_from fuel' recurse ({[x]} ∪ seen)
                  (rest ++ elements found) s'
            end
      end
  end.

(** Modelled from the spec: [concurrent_recursion(recurse, initial_data)]
    of [terra_notebook_utils/utils.py], whose source is missing; the
    traversal starts from the initial identifiers with nothing seen. *)
Definition concurrent_recursion {S : Type} (fuel : nat)
    (recurse : string -> S -> result (gset string) * S)
    (initial_data : gset string) (s : S) : option (result unit * S) :=
  concurrent_recursion_from fuel recurse ∅ (elements initial_data) s.

End utils.

(** ** [datetime] *)

Module datetime.
Import Str.

Record t : Type := mk
  { year : Z; month : Z; day : Z;
    hour : Z; minute : Z; second : Z; microsecond : Z }.

Definition is_leap (y : Z) : bool :=
  ((y mod 4 =? 0) && (negb (y mod 100 =? 0) || (y mod 400 =? 0)))%Z.

Definition days_in_month (y m : Z) : Z :=
  if (m =? 2)%Z then (if is_leap y then 29 else 28)%Z
  else if ((m =? 4) || (m =? 6) || (m =? 9) || (m =? 11))%Z then 30%Z
  else 31%Z.

Definition days_before_year (y : Z) : Z :=
  let y := (y - 1)%Z in
  (y * 365 + y / 4 - y / 100 + y / 400)%Z.

Definition days_before_month (y m : Z) : Z :=
  fold_right Z.add 0%Z
    (map (days_in_month y) (map Z.of_nat (seq 1 (Z.to_nat m - 1)))).

Definition toordinal (d : t) : Z :=
  (days_before_year (year d) + days_before_month (year d) (month d) + day d)%Z.

(** Microseconds since the start of day 0 of the proleptic calendar. *)
Definition to_microseconds (d : t) : Z :=
  ((((toordinal d * 24 + hour d) * 60 + minute d) * 60 + second d) * 1000000
   + microsecond d)%Z.

(** [(b - a).total_seconds()] *)
Definition total_seconds_between (a b : t) : float :=
  Finite (Qred (Qmake (to_microseconds b - to_microseconds a) 1000000)).

(** A field of one to [width] digits with a value in [lo..hi]. *)
Definition field (width : nat) (lo hi : Z) (s : string) : option Z :=
  if all_chars is_digit s && (1 <=? String.length s)%nat && (String.length s <=? width)%nat
  then let v := digits_val 0 s in
       if ((lo <=? v) && (v <=? hi))%Z then Some v else None
  else None.

(** [%d] also accepts a space in front of a single digit. *)
Definition day_field (s : string) : option Z :=
  match s with
  | String " " r => if (String.length r =? 1)%nat then field 1 1 9 r else None
  | _ => field 2 1 31 s
  end.

(** [%Y]: exactly four digits. *)
Definition year_field (s : string) : option Z :=
  if (String.length s =? 4)%nat then field 4 0 9999 s else None.

(** [%f]: one to six digits, padded with zeros on the right. *)
Definition fraction_field (s : string) : option Z :=
  v ← field 6 0 999999 s;
  Some (v * 10 ^ Z.of_nat (6 - String.length s))%Z.

(** The text before the next delimiter and the text after it; the
    pattern is matched without regard to case. *)
Definition upto (delim : ascii) (s : string) : option (string * string) :=
  match span_until (fun c => Ascii.eqb (lower c) (lower delim)) s with
  | (a, String _ b) => Some (a, b)
  | (_, EmptyString) => None
  end.

(** The fields of [%Y-%m-%dT%H:%M:%S.%fZ]. *)
Definition parse_fields (s : string) : option t :=
  '(fY, s) ← upto "-" s; Y ← year_field fY;
  '(fm, s) ← upto "-" s; m ← field 2 1 12 fm;
  '(fd, s) ← upto "T" s; d ← day_field fd;
  '(fH, s) ← upto ":" s; H ← field 2 0 23 fH;
  '(fM, s) ← upto ":" s; M ← field 2 0 59 fM;
  '(fS, s) ← upto "." s; S ← field 2 0 61 fS;
  '(ff, s) ← upto "Z" s; f ← fraction_field ff;
  match s with
  | EmptyString => Some (mk Y m d H M S f)
  | _ => None
  end.

(** The checks of the [datetime] constructor. *)
Definition valid (d : t) : bool :=
  ((1 <=? year d) && (day d <=? days_in_month (year d) (month d))
   && (second d <=? 59))%Z.

(** [datetime.strptime(s, "%Y-%m-%dT%H:%M:%S.%fZ")] *)
Definition strptime (s : string) : result t :=
  match parse_fields s with
  | Some d => if valid d then mret d else raise ValueError
  | None => raise ValueError
  end.

End datetime.


(** ** [terra_notebook_utils.costs] *)

(** The price functions of [terra_notebook_utils/costs.py], whose source
    is missing: they are parameters of the development. *)
Record costs : Type :=
  { PersistentDisk_estimate : float -> float -> float;
    LocalSSDDisk_estimate : float -> float -> float;
    GCPCustomN1Cost_estimate : Z -> float -> float -> bool -> float;
    GCPCustomN2Cost_estimate : Z -> float -> float -> bool -> float }.

(** ** Data model of [workflows.py] *)

(** Workflow metadata: the value of its ["calls"] key, when present, maps
    each call name to the list of its attempts, in insertion order. *)
Record workflow_metadata : Type :=
  { calls : option (list (string * list dict)) }.

(** A submission: the value of its ["workflows"] key, when present. *)
Record submission : Type :=
  { workflows : option (list dict) }.

(** The ["NA"] placeholder or a boolean. *)
Inductive str_or_bool : Type :=
| PyStr (s : string)
| PyBool (b : bool).

(** The [dict] yielded for one call attempt. *)
Record cost_record : Type :=
  { task_name : string;
    cost : float;
    number_of_cpus : Z;
    memory : float;
    disk : float;
    duration : float;
    call_cached : bool;
    preempted : str_or_bool;
    machine_type : string }.

(** What a consumer of the generator observes, in order. *)
Inductive event : Type :=
| Yield (r : cost_record)
| Warning (msg : string).

(** A run of a generator: the events it produced and the exception that
    ended it, if any. *)
Record run : Type :=
  { events : list event;
    raised : option exn }.

Definition run_done : run := {| events := []; raised := None |}.
Definition run_raise (e : exn) : run := {| events := []; raised := Some e |}.
Definition run_emit (ev : event) : run := {| events := [ev]; raised := None |}.

(** [a] followed by [b], unless [a] ended with an exception. *)
Definition run_seq (a b : run) : run :=
  match raised a with
  | Some _ => a
  | None => {| events := events a ++ events b; raised := raised b |}
  end.

(** [for x in l: body(x)] *)
Fixpoint run_for {A} (body : A -> run) (l : list A) : run :=
  match l with
  | [] => run_done
  | x :: l' => run_seq (body x) (run_for body l')
  end.

(** The records a run yielded. *)
Definition yielded (r : run) : list cost_record :=
  omap (fun ev => match ev with Yield c => Some c | Warning _ => None end) (events r).

(** The warnings a run logged. *)
Definition warnings (r : run) : list string :=
  omap (fun ev => match ev with Warning m => Some m | Yield _ => None end) (events r).

(** ** [functools.lru_cache] *)

Module functools.
Section lru.
Context {K V : Type} `{EqDecision K}.

(** The default [maxsize] of [lru_cache()]. *)
Definition maxsize : nat := 128.

(** The entries of a cache, the most recently used first. *)
Fixpoint find (k : K) (c : list (K * V)) : option V :=
  match c with
  | [] => None
  | (k', v) :: c' => if decide (k = k') then Some v else find k c'
  end.

Fixpoint remove (k : K) (c : list (K * V)) : list (K * V) :=
  match c with
  | [] => []
  | (k', v) :: c' => if decide (k = k') then c' else (k', v) :: remove k c'
  end.

(** A hit makes the entry the most recently used. *)
Definition touch (k : K) (v : V) (c : list (K * V)) : list (K * V) :=
  (k, v) :: remove k c.

(** A new entry is stored as the most recently used, and the least
    recently used one is dropped when the cache is full. *)
Definition store (k : K) (v : V) (c : list (K * V)) : list (K * V) :=
  take maxsize ((k, v) :: c).

(** [lru_cache()(body)], for a [body] that acts on a state [S] and may
    raise; the cache is the part of the state that [get] reads and [set]
    writes.  A hit returns the stored value without running [body]; a miss
    runs [body] and stores its value, unless it raises. *)
Definition lru_cache {S : Type}
    (get : S -> list (K * V)) (set : list (K * V) -> S -> S)
    (body : K -> S -> result V * S) (key : K) (s : S) : result V * S :=
  match find key (get s) with
  | Some v => (inr v, set (touch key v (get s)) s)
  | None =>
      match body key s with
      | (inr v, s') => (inr v, set (store key v (get s')) s')
      | (inl e, s') => (inl e, s')
      end
  end.

(** The entry [(k, v)] is in the cache [c], whose keys are distinct, and
    every entry used more recently has its key in [D]. *)
Definition kept (k : K) (v : V) (D : list K) (c : list (K * V)) : Prop :=
  NoDup c.*1 /\
  exists pre suf, c = pre ++ (k, v) :: suf /\ forall x, x ∈ pre.*1 -> x ∈ D.

End lru.
End functools.

(** ** The orchestration service and the state of the process *)

(** An HTTP response: its status, and what [resp.json()] gives, the
    parsed body or the exception raised for a body that cannot be
    decoded. *)
Record response (A : Type) : Type :=
  { status_code : Z;
    json_body : result A }.
Arguments status_code {A} _.
Arguments json_body {A} _.

(** [resp.raise_for_status()] *)
Definition raise_for_status {A} (resp : response A) : result unit :=
  if ((400 <=? status_code resp) && (status_code resp <? 600))%Z
  then raise (HTTPError (status_code resp))
  else mret tt.

(** The calls of [fiss.fapi] that [workflows.py] makes. *)
Inductive request : Type :=
| GetSubmission (namespace workspace : option string) (submission_id : string)
| GetWorkflowMetadata (namespace workspace : option string)
    (submission_id workflow_id : string).

#[global] Instance request_eq_dec : EqDecision request.
Proof. solve_decision. Defined.

(** The service behind [fiss.fapi], an external collaborator: a call
    returns a response or raises, as when the service cannot be reached,
    and its outcome may depend on the number of requests made before. *)
Record service : Type :=
  { fapi_get_submission :
      nat -> option string -> option string -> string -> result (response submission);
    fapi_get_workflow_metadata :
      nat -> option string -> option string -> string -> string
      -> result (response workflow_metadata) }.

(** The state of the process: the two memoization caches and the requests
    made to the service so far, the oldest first, whatever their
    outcome. *)
Record world : Type :=
  { submission_cache : list ((string * option string * option string) * submission);
    workflow_cache :
      list ((string * string * option string * option string) * workflow_metadata);
    sent : list request }.

Definition fresh : world :=
  {| submission_cache := []; workflow_cache := []; sent := [] |}.

Definition set_submission_cache
    (c : list ((string * option string * option string) * submission))
    (w : world) : world :=
  {| submission_cache := c; workflow_cache := workflow_cache w; sent := sent w |}.

Definition set_workflow_cache
    (c : list ((string * string * option string * option string) * workflow_metadata))
    (w : world) : world :=
  {| submission_cache := submission_cache w; workflow_cache := c; sent := sent w |}.

(** The request [r] goes out. *)
Definition send (r : request) (w : world) : world :=
  {| submission_cache := submission_cache w;
     workflow_cache := workflow_cache w;
     sent := sent w ++ [r] |}.

(** Computations that act on the state of the process and may raise. *)
Definition M (A : Type) : Type := world -> result A * world.

(** ** [workflows.py] *)

Module workflows.
Import utils.

Section fetch.
Variable fapi : service.

(** The body of [get_submission], lines 31-33. *)
Definition get_submission_body
    (key : string * option string * option string) : M submission :=
  let '(submission_id, workspace_name, workspace_namespace) := key in
  fun w =>
    (resp ← fapi_get_submission fapi (length (sent w))
              workspace_namespace workspace_name submission_id;
     _ ← raise_for_status resp;
     json_body resp,
     send (GetSubmission workspace_namespace workspace_name submission_id) w).

(** [get_submission], lines 26-33. *)
Definition get_submission : string * option string * option string -> M submission :=
  functools.lru_cache submission_cache set_submission_cache get_submission_body.

(** The body of [get_workflow], lines 41-43. *)
Definition get_workflow_body
    (key : string * string * option string * option string) : M workflow_metadata :=
  let '(submission_id, workflow_id, workspace_name, workspace_namespace) := key in
  fun w =>
    (resp ← fapi_get_workflow_metadata fapi (length (sent w))
              workspace_namespace workspace_name submission_id workflow_id;
     _ ← raise_for_status resp;
     json_body resp,
     send (GetWorkflowMetadata workspace_namespace workspace_name
             submission_id workflow_id) w).

(** [get_workflow], lines 35-43. *)
Definition get_workflow
    : string * string * option string * option string -> M workflow_metadata :=
  functools.lru_cache workflow_cache set_workflow_cache get_workflow_body.

(** A workflow identifier is a [str], as [workflow_id: str] declares.  A
    list or an object cannot be a member of a [set]: Python raises
    [TypeError].  The model is restricted to string identifiers and stops
    in the same way at a number, a boolean or null, which Python would
    put in the set; no statement relies on the outcome for these. *)
Definition as_id (v : json) : result string :=
  match v with
  | JStr s => mret s
  | _ => raise TypeError
  end.

(** [{d[key] for d in l if key in d}] *)
Fixpoint id_set (key : string) (l : list dict) : result (gset string) :=
  match l with
  | [] => mret ∅
  | d :: l' =>
      match dict_get key d with
      | None => id_set key l'
      | Some v => i ← as_id v; s ← id_set key l'; mret ({[i]} ∪ s)
      end
  end.

(** The set of lines 54-57. *)
Definition subworkflows (wf_medadata : workflow_metadata) : result (gset string) :=
  match calls wf_medadata with
  | None => raise (KeyError "calls")
  | Some cs => id_set "subWorkflowId" (concat (snd <$> cs))
  end.

(** [get_metadata_and_subworkflows], lines 51-58; the dictionary
    [workflows_metadata] of the enclosing call is part of its state. *)
Definition get_metadata_and_subworkflows
    (submission_id : string) (workspace workspace_namespace : option string)
    (workflow_id : string) (s : gmap string workflow_metadata * world)
    : result (gset string) * (gmap string workflow_metadata * world) :=
  let '(workflows_metadata, w) := s in
  match get_workflow (submission_id, workflow_id, workspace, workspace_namespace) w with
  | (inl e, w') => (inl e, (workflows_metadata, w'))
  | (inr wf_medadata, w') =>
      (subworkflows wf_medadata, (<[workflow_id := wf_medadata]> workflows_metadata, w'))
  end.

(** The set of line 61. *)
Definition initial_workflow_ids (s : submission) : result (gset string) :=
  match workflows s with
  | None => raise (KeyError "workflows")
  | Some wfs => id_set "workflowId" wfs
  end.

(** [get_all_workflows], lines 45-64. *)
Definition get_all_workflows (fuel : nat)
    (submission_id : string) (workspace workspace_namespace : option string)
    (w : world) : option (result (gmap string workflow_metadata) * world) :=
  match get_submission (submission_id, workspace, workspace_namespace) w with
  | (inl e, w') => Some (inl e, w')
  | (inr s, w') =>
      match initial_workflow_ids s with
      | inl e => Some (inl e, w')
      | inr ids =>
          match concurrent_recursion fuel
                  (get_metadata_and_subworkflows submission_id workspace workspace_namespace)
                  ids (∅, w') with
          | None => None
          | Some (inl e, (_, w'')) => Some (inl e, w'')
          | Some (inr _, (workflows_metadata, w'')) => Some (inr workflows_metadata, w'')
          end
      end
  end.

(** A call of one of the two memoized functions. *)
Inductive call : Type :=
| CallGetSubmission (key : string * option string * option string)
| CallGetWorkflow (key : string * string * option string * option string).

(** The state after a call, whether it returns or raises. *)
Definition after_call (cl : call) (w : world) : world :=
  match cl with
  | CallGetSubmission key => (get_submission key w).2
  | CallGetWorkflow key => (get_workflow key w).2
  end.

(** The state after a sequence of calls, the first of them first. *)
Definition after_calls (cls : list call) (w : world) : world :=
  foldl (fun w cl => after_call cl w) w cls.

End fetch.

(** [_parse_machine_type], lines 121-132 *)
Definition _parse_machine_type (machine_type : string) : result (Z * float) :=
  let machine_type := Str.replace machine_type "n2d-" "" in
  let parts := Str.splitn "-" 2 machine_type in
  match parts with
  | [p0; p1; p2] =>
      if negb (String.eqb "custom" p0)
      then raise (TNUCostException
                    ("Cannot estimate costs for machine type '" +:+ machine_type +:+ "'"
                     +:+ "Please contact terra-notebook-utils maintainers to add support"))
      else
        match (cpus ← Num.int_of_str p1;
               m ← Num.float_of_str p2;
               mret (cpus, Float.div_pos m 1024)) with
        | inl ValueError =>
            raise (TNUCostException
                     ("Cannot parse cpus and memory from '" +:+ machine_type +:+ "'"))
        | r => r
        end
  | _ =>
      raise (TNUCostException
               ("Cannot estimate costs for machine type '" +:+ machine_type +:+ "'"
                +:+ "Please contact terra-notebook-utils maintainers to add support"))
  end.

Section estimate.
Variable c : costs.

(** The disk size of lines 92-96. *)
Definition disk_size (disk_description : string) : result float :=
  if Str.startswith disk_description "local-disk" then
    match Str.words disk_description with
    | [_; size_gb; _] => Num.float_of_str size_gb
    | _ => raise ValueError
    end
  else mret Float.one.

(** The disk price of lines 98-100. *)
Definition disk_cost (disk_description : string) (disk_size_gb runtime : float) : float :=
  let cost_disk := PersistentDisk_estimate c disk_size_gb runtime in
  if Str.endswith disk_description "LOCAL"
  then LocalSSDDisk_estimate c disk_size_gb runtime
  else cost_disk.

(** The instance price of lines 102-106. *)
Definition instance_cost (cpuplatform_description : json)
    (cpus : Z) (memory_gb runtime : float) (preemptible : bool) : float :=
  let cost_instance := GCPCustomN1Cost_estimate c cpus memory_gb runtime preemptible in
  if eq_str cpuplatform_description "Intel Cascade Lake"
     || eq_str cpuplatform_description "AMD Rome"
  then GCPCustomN2Cost_estimate c cpus memory_gb runtime preemptible
  else cost_instance.

(** The body of the [try] statement, lines 73-116: the record it yields or
    the exception it raises. *)
Definition attempt_record (call_name : string) (call_metadata : dict) : result cost_record :=
  task_name ← py_index (Str.split "." call_name) 1;
  hit ← js_get "callCaching.hit" call_metadata (Some (JInt 0));
  hit ← py_int hit;
  let call_cached := py_bool hit in
  if call_cached then
    mret {| task_name := task_name; cost := Float.zero; number_of_cpus := 0;
            memory := Float.zero; disk := Float.zero; duration := Float.zero;
            call_cached := call_cached; preempted := PyStr "NA"; machine_type := "NA" |}
  else
    machine_type ← js_get "jes.machineType" call_metadata None;
    machine_type ← str_method machine_type;
    '(cpus, memory_gb) ← _parse_machine_type machine_type;
    start ← js_get "start" call_metadata None;
    start ← str_arg start;
    start ← datetime.strptime start;
    end_ ← js_get "end" call_metadata None;
    end_ ← str_arg end_;
    end_ ← datetime.strptime end_;
    let runtime := datetime.total_seconds_between start end_ in
    preemptible ← js_get "runtimeAttributes.preemptible" call_metadata None;
    preemptible ← py_int preemptible;
    let preemptible := py_bool preemptible in
    backendStatus ← js_get "backendStatus" call_metadata None;
    let preempted :=
      if preemptible then PyBool (eq_str backendStatus "Preempted") else PyStr "NA" in
    disk_description ← js_get "runtimeAttributes.disks" call_metadata (Some (JStr ""));
    disk_description ← str_method disk_description;
    disk_size_gb ← disk_size disk_description;
    let cost_disk := disk_cost disk_description disk_size_gb runtime in
    cpuplatform_description ←
      js_get "runtimeAttributes.cpuPlatform" call_metadata (Some (JStr ""));
    let cost_instance :=
      instance_cost cpuplatform_description cpus memory_gb runtime preemptible in
    let cost := Float.add cost_instance cost_disk in
    mret {| task_name := task_name; cost := cost; number_of_cpus := cpus;
            memory := memory_gb; disk := disk_size_gb; duration := runtime;
            call_cached := call_cached; preempted := preempted;
            machine_type := machine_type |}.

(** The text logged by the [except] clause, lines 118-119. *)
Definition warning_text (workflow_id msg : string) : string :=
  "Unable to estimate costs for workflow " +:+ workflow_id +:+ ": " +:+ msg.

(** One iteration of the inner loop, lines 69-119. *)
Definition estimate_attempt (workflow_id call_name : string) (call_metadata : dict) : run :=
  if has_key "subWorkflowId" call_metadata then run_done
  else
    match attempt_record call_name call_metadata with
    | inr r => run_emit (Yield r)
    | inl (KeyError msg) | inl (TNUCostException msg) =>
        run_emit (Warning (warning_text workflow_id msg))
    | inl e => run_raise e
    end.

(** [estimate_workflow_cost], lines 66-119, run to exhaustion. *)
Definition estimate_workflow_cost (workflow_id : string) (wm : workflow_metadata) : run :=
  match calls wm with
  | None => run_raise (KeyError "calls")
  | Some cs =>
      run_for (fun '(call_name, call_metadata_list) =>
                 run_for (estimate_attempt workflow_id call_name) call_metadata_list)
              cs
  end.

End estimate.
End workflows.

(** ** Notions for the fetcher and the discoverer *)

(** The metadata [v] is the answer, with a success status and as the
    decoded body, to every request for the workflow [workflow_id],
    whenever the request is made. *)
Definition answers (fapi : service) (namespace workspace : option string)
    (submission_id workflow_id : string) (v : workflow_metadata) : Prop :=
  forall n,
    exists resp,
      fapi_get_workflow_metadata fapi n namespace workspace submission_id workflow_id
      = inr resp
      /\ raise_for_status resp = inr tt /\ json_body resp = inr v.

(** The identifiers that sub-workflow references lead to, from the
    initial ones. *)
Inductive reachable (initial : gset string) (succ : string -> gset string)
    : string -> Prop :=
| reachable_initial x : x ∈ initial -> reachable initial succ x
| reachable_step x y :
    reachable initial succ x -> y ∈ succ x -> reachable initial succ y.

(** The state of the traversal of [get_all_workflows] when the workflows
    [seen] have been expanded and [frontier] waits: the metadata recorded
    and cached are those of [seen], each requested once since the state
    [w1], and the references found so far lead to [seen] or [frontier]. *)
Record traversal (w1 : world) (namespace workspace : option string)
    (submission_id : string) (initial : gset string)
    (succ : string -> gset string) (md : string -> workflow_metadata)
    (seen : gset string) (frontier : list string)
    (m : gmap string workflow_metadata) (w : world) : Prop :=
  { traversal_dom : dom m = seen;
    traversal_metadata : forall x, x ∈ seen -> m !! x = Some (md x);
    traversal_seen : forall x, x ∈ seen -> reachable initial succ x;
    traversal_frontier : forall x, x ∈ frontier -> reachable initial succ x;
    traversal_closed :
      forall x y, x ∈ seen -> y ∈ succ x -> y ∈ seen \/ y ∈ frontier;
    traversal_initial : forall x, x ∈ initial -> x ∈ seen \/ x ∈ frontier;
    traversal_cache :
      forall k, k ∈ (workflow_cache w).*1 ->
        exists y, y ∈ seen /\ k = (submission_id, y, workspace, namespace);
    traversal_sent :
      exists reqs,
        sent w = sent w1 ++ reqs
        /\ reqs ≡ₚ (GetWorkflowMetadata namespace workspace submission_id
                     <$> elements seen) }.

(** The argument tuples of the calls of each function in a sequence. *)
Definition submission_keys (cls : list workflows.call)
    : list (string * option string * option string) :=
  omap (fun cl => match cl with workflows.CallGetSubmission k => Some k | _ => None end) cls.

Definition workflow_keys (cls : list workflows.call)
    : list (string * string * option string * option string) :=
  omap (fun cl => match cl with workflows.CallGetWorkflow k => Some k | _ => None end) cls.

(** The number of distinct elements of [l] other than [k]. *)
Definition distinct_others {K} `{EqDecision K} (k : K) (l : list K) : nat :=
  length (remove_dups (filter (fun x => x <> k) l)).

(** ** Views of a call attempt

    The values that the body of the [try] statement reads from an attempt,
    named for use in the statements below. *)

(** The cache-hit indicator of line 74, before [bool]. *)
Definition cache_hit (call_metadata : dict) : result Z :=
  utils.js_get "callCaching.hit" call_metadata (Some (JInt 0)) ≫= py_int.

(** The preemptible flag of line 86, before [bool]. *)
Definition preemptible_flag (call_metadata : dict) : result Z :=
  utils.js_get "runtimeAttributes.preemptible" call_metadata None ≫= py_int.

(** The disk descriptor of line 91. *)
Definition disk_descriptor (call_metadata : dict) : result json :=
  utils.js_get "runtimeAttributes.disks" call_metadata (Some (JStr "")).

(** The task name of line 73. *)
Definition task_of (call_name : string) : option string :=
  Str.split "." call_name !! 1%nat.

(** The exceptions that the [except] clause of line 117 catches, with
    their first argument. *)
Definition caught (e : exn) : option string :=
  match e with
  | KeyError msg | TNUCostException msg => Some msg
  | _ => None
  end.

(** What lines 79-102 read from an attempt that is not cached. *)
Record reads : Type :=
  { read_machine_type : string;
    read_cpus : Z;
    read_memory_gb : float;
    read_start : datetime.t;
    read_end : datetime.t;
    read_preemptible : Z;
    read_backendStatus : json;
    read_disk_description : string;
    read_disk_size_gb : float;
    read_cpuplatform : json }.

(** The attempt [call_metadata] provides the values [v], each read
    succeeding. *)
Definition provides (call_metadata : dict) (v : reads) : Prop :=
  utils.js_get "jes.machineType" call_metadata None = inr (JStr (read_machine_type v))
  /\ workflows._parse_machine_type (read_machine_type v)
     = inr (read_cpus v, read_memory_gb v)
  /\ ((utils.js_get "start" call_metadata None ≫= str_arg) ≫= datetime.strptime)
     = inr (read_start v)
  /\ ((utils.js_get "end" call_metadata None ≫= str_arg) ≫= datetime.strptime)
     = inr (read_end v)
  /\ preemptible_flag call_metadata = inr (read_preemptible v)
  /\ utils.js_get "backendStatus" call_metadata None = inr (read_backendStatus v)
  /\ disk_descriptor call_metadata = inr (JStr (read_disk_description v))
  /\ workflows.disk_size (read_disk_description v) = inr (read_disk_size_gb v)
  /\ utils.js_get "runtimeAttributes.cpuPlatform" call_metadata (Some (JStr ""))
     = inr (read_cpuplatform v).

(** The record of lines 108-116 for a task and the values read. *)
Definition record_of (c : costs) (task : string) (v : reads) : cost_record :=
  let runtime := datetime.total_seconds_between (read_start v) (read_end v) in
  let preemptible := py_bool (read_preemptible v) in
  {| task_name := task;
     cost :=
       Float.add
         (workflows.instance_cost c (read_cpuplatform v) (read_cpus v)
            (read_memory_gb v) runtime preemptible)
         (workflows.disk_cost c (read_disk_description v) (read_disk_size_gb v) runtime);
     number_of_cpus := read_cpus v;
     memory := read_memory_gb v;
     disk := read_disk_size_gb v;
     duration := runtime;
     call_cached := false;
     preempted :=
       if preemptible then PyBool (eq_str (read_backendStatus v) "Preempted")
       else PyStr "NA";
     machine_type := read_machine_type v |}.

(** The record of line 77 for a task whose call is cached. *)
Definition cached_record (task : string) : cost_record :=
  {| task_name := task; cost := Finite 0; number_of_cpus := 0;
     memory := Finite 0; disk := Finite 0; duration := Finite 0;
     call_cached := true; preempted := PyStr "NA"; machine_type := "NA" |}.

(** A parse that failed with [TNUCostException]. *)
Definition cost_exception {A} (r : result A) : Prop :=
  exists msg, r = inl (TNUCostException msg).

(** ** Notions for further properties *)

(** The attempts of a call that are not sub-workflow references. *)
Definition task_attempts (l : list dict) : list dict :=
  filter (fun cm => has_key "subWorkflowId" cm = false) l.

(** The calls of a workflow without their sub-workflow references. *)
Definition without_subworkflows (cs : list (string * list dict))
    : list (string * list dict) :=
  (fun p => (p.1, task_attempts p.2)) <$> cs.

(** The number of attempts of a workflow that are not sub-workflow
    references. *)
Definition count_task_attempts (cs : list (string * list dict)) : nat :=
  length (cs ≫= (fun p => task_attempts p.2)).

(** The request that a call of a memoized function sends to the service
    when it does not find its arguments in the cache. *)
Definition request_of (cl : workflows.call) : request :=
  match cl with
  | workflows.CallGetSubmission (submission_id, workspace_name, workspace_namespace) =>
      GetSubmission workspace_namespace workspace_name submission_id
  | workflows.CallGetWorkflow (submission_id, workflow_id, workspace_name, workspace_namespace) =>
      GetWorkflowMetadata workspace_namespace workspace_name submission_id workflow_id
  end.

(** The sub-workflow references that a mapping records for a workflow. *)
Definition recorded_succ (m : gmap string workflow_metadata) (x : string) : gset string :=
  match m !! x with
  | Some v =>
      match workflows.subworkflows v with
      | inr found => found
      | inl _ => ∅
      end
  | None => ∅
  end.

(** A run without the texts of its warnings: the records and the places
    of the warnings among them, and the exception that ended it. *)
Definition without_text (ev : event) : option cost_record :=
  match ev with
  | Yield r => Some r
  | Warning _ => None
  end.

Definition shape (a : run) : list (option cost_record) * option exn :=
  (without_text <$> events a, raised a).

(** The state of the traversal of [get_all_workflows] when the workflows
    [seen] have been expanded and [frontier] waits, whatever the service
    answers: the mapping records the workflows of [seen], the references
    recorded lead to [seen] or to [frontier], every identifier of the two
    is reached from the initial ones through recorded references, and the
    requests sent since the state [w1] are for distinct workflows of
    [seen]. *)
Record explored (w1 : world) (namespace workspace : option string)
    (submission_id : string) (initial : gset string)
    (seen : gset string) (frontier : list string)
    (m : gmap string workflow_metadata) (w : world) : Prop :=
  { explored_dom : dom m = seen;
    explored_closed :
      forall x, x ∈ seen ->
        exists v found,
          m !! x = Some v /\ workflows.subworkflows v = inr found
          /\ forall y, y ∈ found -> y ∈ seen \/ y ∈ frontier;
    explored_initial : forall x, x ∈ initial -> x ∈ seen \/ x ∈ frontier;
    explored_seen : forall x, x ∈ seen -> reachable initial (recorded_succ m) x;
    explored_frontier :
      forall x, x ∈ frontier -> reachable initial (recorded_succ m) x;
    explored_sent :
      exists reqs,
        sent w = sent w1 ++ reqs /\ NoDup reqs
        /\ forall r, r ∈ reqs ->
             exists x, x ∈ seen
                       /\ r = GetWorkflowMetadata namespace workspace submission_id x }.

(** ** Sample data *)

Module sample.

(** Flat prices that tell the four price functions apart. *)
Definition prices : costs :=
  {| PersistentDisk_estimate := fun _ _ => Finite 1;
     LocalSSDDisk_estimate := fun _ _ => Finite 2;
     GCPCustomN1Cost_estimate := fun _ _ _ _ => Finite 10;
     GCPCustomN2Cost_estimate := fun _ _ _ _ => Finite 20 |}.

(** An attempt as the service reports it, with the given preemptible flag,
    disk descriptor and further fields. *)
Definition attempt (preemptible : json) (disks : string) (more : dict) : dict :=
  [("jes", JObj [("machineType", JStr "custom-4-15360")]);
   ("start", JStr "2021-06-01T12:00:00.000Z");
   ("end", JStr "2021-06-01T13:00:00.500Z");
   ("runtimeAttributes", JObj [("preemptible", preemptible); ("disks", JStr disks)])]
  ++ more.

Definition preempted_attempt : dict :=
  attempt (JStr "3") "local-disk 50 SSD" [("backendStatus", JStr "Preempted")].

Definition done_attempt : dict :=
  attempt (JStr "0") "local-disk 50 LOCAL" [("backendStatus", JStr "Done")].

(** No backend status, and not preemptible. *)
Definition no_status_attempt : dict :=
  attempt (JStr "0") "local-disk 50 SSD" [].

(** No disk descriptor. *)
Definition no_disk_attempt : dict :=
  [("jes", JObj [("machineType", JStr "custom-4-15360")]);
   ("start", JStr "2021-06-01T12:00:00.000Z");
   ("end", JStr "2021-06-01T13:00:00.500Z");
   ("runtimeAttributes", JObj [("preemptible", JStr "0")]);
   ("backendStatus", JStr "Done")].

Definition cached_attempt : dict :=
  [("callCaching", JObj [("hit", JBool true)])].

(** No [start] field. *)
Definition no_start_attempt : dict :=
  [("jes", JObj [("machineType", JStr "custom-4-15360")]);
   ("end", JStr "2021-06-01T13:00:00.500Z");
   ("runtimeAttributes", JObj [("preemptible", JStr "0")]);
   ("backendStatus", JStr "Done")].

(** A [start] time without a fraction of a second. *)
Definition whole_second_attempt : dict :=
  [("jes", JObj [("machineType", JStr "custom-4-15360")]);
   ("start", JStr "2021-06-01T12:00:00Z");
   ("end", JStr "2021-06-01T13:00:00.500Z");
   ("runtimeAttributes", JObj [("preemptible", JStr "0")]);
   ("backendStatus", JStr "Done")].

Definition done_reads : reads :=
  {| read_machine_type := "custom-4-15360"; read_cpus := 4;
     read_memory_gb := Finite 15;
     read_start := datetime.mk 2021 6 1 12 0 0 0;
     read_end := datetime.mk 2021 6 1 13 0 0 500000;
     read_preemptible := 0; read_backendStatus := JStr "Done";
     read_disk_description := "local-disk 50 LOCAL";
     read_disk_size_gb := Finite 50; read_cpuplatform := JStr "" |}.

Definition preempted_reads : reads :=
  {| read_machine_type := "custom-4-15360"; read_cpus := 4;
     read_memory_gb := Finite 15;
     read_start := datetime.mk 2021 6 1 12 0 0 0;
     read_end := datetime.mk 2021 6 1 13 0 0 500000;
     read_preemptible := 3; read_backendStatus := JStr "Preempted";
     read_disk_description := "local-disk 50 SSD";
     read_disk_size_gb := Finite 50; read_cpuplatform := JStr "" |}.

(** A service that answers every request with status 200 and workflow
    metadata without calls. *)
Definition quiet_service : service :=
  {| fapi_get_submission := fun _ _ _ _ =>
       inr {| status_code := 200; json_body := inr {| workflows := Some [] |} |};
     fapi_get_workflow_metadata := fun _ _ _ _ _ =>
       inr {| status_code := 200; json_body := inr {| calls := Some [] |} |} |}.

(** The [n]-th workflow identifier of a numbered family. *)
Definition numbered (n : nat) : string := String (ascii_of_nat (32 + n)) "".

Definition numbered_key (n : nat) : string * string * option string * option string :=
  ("submission", numbered n, Some "workspace", Some "namespace").

(** One call of [get_workflow] for each of the first [n] identifiers. *)
Definition numbered_calls (n : nat) : list workflows.call :=
  (fun i => workflows.CallGetWorkflow (numbered_key i)) <$> seq 0 n.

(** A submission with the workflows A and B and an entry without an
    identifier; A calls the sub-workflow C, which calls the sub-workflow D. *)
Definition tree_metadata (workflow_id : string) : workflow_metadata :=
  if String.eqb workflow_id "A" then
    {| calls := Some [("A.sub", [[("subWorkflowId", JStr "C")]]);
                      ("A.sort", [done_attempt])] |}
  else if String.eqb workflow_id "C" then
    {| calls := Some [("C.sub", [[("subWorkflowId", JStr "D")]])] |}
  else {| calls := Some [] |}.

Definition tree_succ (workflow_id : string) : gset string :=
  if String.eqb workflow_id "A" then {["C"]}
  else if String.eqb workflow_id "C" then {["D"]}
  else ∅.

Definition tree_ids : gset string := {["A"]} ∪ ({["B"]} ∪ ∅).

Definition tree_universe : gset string := list_to_set ["A"; "B"; "C"; "D"].

Definition tree_submission : submission :=
  {| workflows := Some [[("workflowId", JStr "A")];
                        [("status", JStr "Failed")];
                        [("workflowId", JStr "B")]] |}.

Definition tree_service : service :=
  {| fapi_get_submission := fun _ _ _ _ =>
       inr {| status_code := 200;
              json_body := inr tree_submission |};
     fapi_get_workflow_metadata := fun _ _ _ _ workflow_id =>
       inr {| status_code :=
                if bool_decide (workflow_id ∈ ["A"; "B"; "C"; "D"]) then 200 else 404;
              json_body := inr (tree_metadata workflow_id) |} |}.

(** A workflow with a sub-workflow reference, a cached attempt, an attempt
    that runs to its end and one without a [start] field. *)
Definition mixed_calls : list (string * list dict) :=
  [("Align.sub", [[("subWorkflowId", JStr "C")]]);
   ("Align.sort", [cached_attempt; done_attempt]);
   ("Align.index", [no_start_attempt])].

(** An attempt on an N2 machine. *)
Definition cascade_lake_attempt : dict :=
  [("jes", JObj [("machineType", JStr "custom-4-15360")]);
   ("start", JStr "2021-06-01T12:00:00.000Z");
   ("end", JStr "2021-06-01T13:00:00.500Z");
   ("runtimeAttributes",
    JObj [("preemptible", JStr "0"); ("cpuPlatform", JStr "Intel Cascade Lake")]);
   ("backendStatus", JStr "Done")].

(** An attempt on a predefined machine type. *)
Definition standard_machine_attempt : dict :=
  [("jes", JObj [("machineType", JStr "n1-standard-4")]);
   ("start", JStr "2021-06-01T12:00:00.000Z");
   ("end", JStr "2021-06-01T13:00:00.500Z");
   ("runtimeAttributes", JObj [("preemptible", JStr "0")]);
   ("backendStatus", JStr "Done")].

(** An attempt whose machine type is no string. *)
Definition numeric_machine_attempt : dict :=
  [("jes", JObj [("machineType", JInt 4)]);
   ("start", JStr "2021-06-01T12:00:00.000Z");
   ("end", JStr "2021-06-01T13:00:00.500Z");
   ("runtimeAttributes", JObj [("preemptible", JStr "0")]);
   ("backendStatus", JStr "Done")].

(** A service whose first answer has a body that is not JSON, and which
    answers as [quiet_service] from then on. *)
Definition garbled_once_service : service :=
  {| fapi_get_submission := fapi_get_submission quiet_service;
     fapi_get_workflow_metadata := fun n _ _ _ _ =>
       inr {| status_code := 200;
              json_body := if n is O then inl ValueError
                           else inr {| calls := Some [] |} |} |}.

End sample.
(** * Properties *)

(** ** Built-in conversions on sample inputs *)

Example int_of_str_ex :
  Num.int_of_str " 1_000 " = inr 1000%Z /\ Num.int_of_str "-4" = inr (-4)%Z /\
  Num.int_of_str "" = inl ValueError /\ Num.int_of_str "1__0" = inl ValueError /\
  Num.int_of_str "4.0" = inl ValueError.
Proof. repeat split; reflexivity. Qed.

Example float_of_str_ex :
  Num.float_of_str "15360" = inr (Finite 15360) /\
  Num.float_of_str "1.5e3" = inr (Finite 1500) /\
  Num.float_of_str ".5" = inr (Finite (1 # 2)) /\
  Num.float_of_str "-Inf" = inr (Infinity true) /\
  Num.float_of_str "." = inl ValueError /\
  Num.float_of_str "1e" = inl ValueError /\
  Num.float_of_str "5." = inr (Finite 5).
Proof. repeat split; vm_compute; reflexivity. Qed.

Example strptime_ex :
  datetime.strptime "2021-06-01T12:34:56.789012Z"
    = inr (datetime.mk 2021 6 1 12 34 56 789012) /\
  datetime.strptime "2021-06-01T12:34:56.5Z"
    = inr (datetime.mk 2021 6 1 12 34 56 500000) /\
  datetime.strptime "2021-02-29T12:34:56.5Z" = inl ValueError /\
  datetime.strptime "2021-06-01T12:34:56Z" = inl ValueError /\
  datetime.strptime "2021-06-01 12:34:56.5Z" = inl ValueError.
Proof. repeat split; reflexivity. Qed.

Example toordinal_ex :
  datetime.toordinal (datetime.mk 1 1 1 0 0 0 0) = 1%Z /\
  datetime.toordinal (datetime.mk 2021 6 1 0 0 0 0) = 737942%Z.
Proof. split; reflexivity. Qed.

Example total_seconds_ex :
  datetime.total_seconds_between
    (datetime.mk 2021 6 1 12 0 0 0) (datetime.mk 2021 6 2 13 0 1 500000)
  = Finite (180003 # 2).
Proof. reflexivity. Qed.

(** ** Runs of generators *)

Lemma run_seq_done_l (b : run) : run_seq run_done b = b.
Proof. by destruct b. Qed.

Lemma run_seq_done_r (a : run) : run_seq a run_done = a.
Proof.
  destruct a as [ev [e|]]; unfold run_seq; simpl; [done|].
  by rewrite app_nil_r.
Qed.

Lemma run_seq_assoc (a b d : run) :
  run_seq a (run_seq b d) = run_seq (run_seq a b) d.
Proof.
  destruct a as [eva [ea|]], b as [evb [eb|]]; unfold run_seq; simpl; try done.
  by rewrite app_assoc.
Qed.

Lemma run_seq_raise (a : run) (e : exn) (b : run) :
  run_seq (run_seq a (run_raise e)) b = run_seq a (run_raise e).
Proof. by destruct a as [eva [ea|]]. Qed.

Lemma run_for_app {A} (body : A -> run) (l1 l2 : list A) :
  run_for body (l1 ++ l2) = run_seq (run_for body l1) (run_for body l2).
Proof.
  induction l1 as [|x l1 IH]; simpl.
  - by rewrite run_seq_done_l.
  - by rewrite IH, run_seq_assoc.
Qed.

(** A run whose steps all end normally ends normally, and its events are
    those of its steps, in order. *)
Lemma run_for_normal {A} (body : A -> run) (l : list A) :
  (forall x, x ∈ l -> raised (body x) = None) ->
  raised (run_for body l) = None /\
  events (run_for body l) = l ≫= (fun x => events (body x)).
Proof.
  induction l as [|x l IH]; intros Hl; [done|].
  destruct IH as [IH1 IH2]; [intros; apply Hl; by right|].
  simpl. unfold run_seq. rewrite (Hl x) by left. simpl.
  by rewrite IH1, IH2.
Qed.

Section estimator_runs.
Variable c : costs.

(** The generator visits the attempts of a workflow call by call. *)
Lemma estimate_workflow_cost_cons wid name l cs :
  workflows.estimate_workflow_cost c wid {| calls := Some ((name, l) :: cs) |}
  = run_seq (run_for (workflows.estimate_attempt c wid name) l)
            (workflows.estimate_workflow_cost c wid {| calls := Some cs |}).
Proof. done. Qed.

Lemma estimate_workflow_cost_app wid cs1 cs2 :
  workflows.estimate_workflow_cost c wid {| calls := Some (cs1 ++ cs2) |}
  = run_seq (workflows.estimate_workflow_cost c wid {| calls := Some cs1 |})
            (workflows.estimate_workflow_cost c wid {| calls := Some cs2 |}).
Proof. unfold workflows.estimate_workflow_cost; simpl. apply run_for_app. Qed.

(** The run over a workflow, cut at one attempt of one call. *)
Lemma estimate_workflow_cost_at wid before name l1 cm l2 after :
  workflows.estimate_workflow_cost c wid
    {| calls := Some (before ++ (name, l1 ++ cm :: l2) :: after) |}
  = run_seq
      (workflows.estimate_workflow_cost c wid {| calls := Some (before ++ [(name, l1)]) |})
      (run_seq (workflows.estimate_attempt c wid name cm)
         (workflows.estimate_workflow_cost c wid {| calls := Some ((name, l2) :: after) |})).
Proof.
  rewrite !estimate_workflow_cost_app, !estimate_workflow_cost_cons.
  rewrite run_for_app. simpl.
  change (workflows.estimate_workflow_cost c wid {| calls := Some [] |}) with run_done.
  rewrite run_seq_done_r.
  by rewrite !run_seq_assoc.
Qed.

End estimator_runs.

(** ** Splitting strings *)

Lemma splitn_no_sep sep n s :
  Str.all_chars (fun ch => negb (Ascii.eqb ch sep)) s = true ->
  Str.splitn sep n s = [s].
Proof.
  revert n. induction s as [|ch s IH]; intros n Hs; [done|].
  simpl in Hs. apply andb_true_iff in Hs as [Hch Hs].
  destruct n as [|n]; [done|]. simpl.
  apply negb_true_iff in Hch. rewrite Hch.
  by rewrite (IH (S n) Hs).
Qed.

Lemma splitn_zero sep s : Str.splitn sep 0 s = [s].
Proof. by destruct s. Qed.

Lemma splitn_at_sep sep n a b :
  Str.all_chars (fun ch => negb (Ascii.eqb ch sep)) a = true ->
  Str.splitn sep (S n) (a +:+ String sep b) = a :: Str.splitn sep n b.
Proof.
  induction a as [|ch a IH]; intros Ha.
  - change ("" +:+ String sep b) with (String sep b).
    cbn [Str.splitn]. by rewrite Ascii.eqb_refl.
  - cbn [Str.all_chars] in Ha. apply andb_true_iff in Ha as [Hch Ha].
    apply negb_true_iff in Hch.
    change (String ch a +:+ String sep b) with (String ch (a +:+ String sep b)).
    cbn [Str.splitn]. by rewrite Hch, (IH Ha).
Qed.

(** [replace] leaves a string without the letter [d] as it is when the
    pattern is ["n2d-"]. *)
Lemma replace_n2d_id s :
  Str.all_chars (fun ch => negb (Ascii.eqb ch "d")) s = true ->
  Str.replace s "n2d-" "" = s.
Proof.
  unfold Str.replace. induction s as [|ch s IH]; intros Hs; [done|].
  assert (Str.startswith (String ch s) "n2d-" = false) as Hp.
  { destruct (Str.startswith (String ch s) "n2d-") eqn:E; [|done].
    destruct s as [|c2 [|c3 s]]; cbn [Str.startswith] in E;
      rewrite ?andb_false_r in E; try done.
    apply andb_true_iff in E as [_ E]. apply andb_true_iff in E as [_ E].
    apply andb_true_iff in E as [E _]. apply Ascii.eqb_eq in E. subst c3.
    cbn [Str.all_chars] in Hs. rewrite Ascii.eqb_refl in Hs.
    by rewrite !andb_false_r in Hs. }
  cbn [Str.replace_from]. rewrite Hp.
  cbn [Str.all_chars] in Hs. apply andb_true_iff in Hs as [_ Hs].
  by rewrite (IH Hs).
Qed.

(** ** The error monad *)

Lemma bind_inr {A B} (m : result A) (f : A -> result B) (b : B) :
  m ≫= f = inr b <-> exists a, m = inr a /\ f a = inr b.
Proof.
  destruct m as [e|a]; split.
  - intros H; discriminate H.
  - intros (a & H & _); discriminate H.
  - intros H. exists a. split; [done | exact H].
  - intros (a' & E & H). injection E as <-. exact H.
Qed.

Lemma bind_ok {A B} (a : A) (f : A -> result B) : inr a ≫= f = f a.
Proof. reflexivity. Qed.

Lemma bind_raise {A B} (e : exn) (f : A -> result B) : inl e ≫= f = inl e.
Proof. reflexivity. Qed.

(** ** The machine-type parser *)

Lemma all_chars_app p a b :
  Str.all_chars p (a +:+ b) = Str.all_chars p a && Str.all_chars p b.
Proof.
  induction a as [|ch a IH]; [done|].
  cbn [Str.all_chars]. fold (String.append a b).
  change (String ch a +:+ b) with (String ch (a +:+ b)).
  cbn [Str.all_chars]. by rewrite IH, andb_assoc.
Qed.

Lemma replace_n2d_prefix s :
  Str.replace ("n2d-" +:+ s) "n2d-" "" = Str.replace s "n2d-" "".
Proof. reflexivity. Qed.

(** *** The characters of numerals *)

Lemma all_chars_impl (P Q : ascii -> bool) s :
  (forall ch, P ch = true -> Q ch = true) ->
  Str.all_chars P s = true -> Str.all_chars Q s = true.
Proof.
  intros HPQ. induction s as [|ch s IH]; [done|]. cbn [Str.all_chars].
  rewrite !andb_true_iff. intros [Hch Hs]. auto.
Qed.

Lemma all_chars_rev_acc P s acc :
  Str.all_chars P (Str.rev_acc s acc) = Str.all_chars P s && Str.all_chars P acc.
Proof.
  revert acc. induction s as [|ch s IH]; intros acc; [done|].
  cbn [Str.rev_acc Str.all_chars]. rewrite IH. cbn [Str.all_chars].
  by rewrite andb_assoc, (andb_comm (Str.all_chars P s)).
Qed.

Lemma all_chars_rev P s : Str.all_chars P (Str.rev s) = Str.all_chars P s.
Proof. unfold Str.rev. by rewrite all_chars_rev_acc, andb_true_r. Qed.

Lemma all_chars_lstrip P s :
  (forall ch, Str.is_c_space ch = true -> P ch = true) ->
  Str.all_chars P (Str.lstrip s) = true -> Str.all_chars P s = true.
Proof.
  intros Hsp. induction s as [|ch s IH]; [done|]. cbn [Str.lstrip].
  destruct (Str.is_c_space ch) eqn:E; [|done].
  intros H. cbn [Str.all_chars]. by rewrite (Hsp ch E), (IH H).
Qed.

Lemma all_chars_strip P s :
  (forall ch, Str.is_c_space ch = true -> P ch = true) ->
  Str.all_chars P (Str.strip s) = true -> Str.all_chars P s = true.
Proof.
  intros Hsp H. unfold Str.strip in H. rewrite all_chars_rev in H.
  apply (all_chars_lstrip P _ Hsp) in H. rewrite all_chars_rev in H.
  by apply (all_chars_lstrip P _ Hsp).
Qed.

Lemma all_chars_lower P s :
  Str.all_chars P (Str.lower_str s) = Str.all_chars (fun ch => P (Str.lower ch)) s.
Proof. induction s as [|ch s IH]; [done|]. cbn [Str.lower_str Str.all_chars]. by rewrite IH. Qed.

Lemma span_until_chars P stop s a b :
  Str.span_until stop s = (a, b) ->
  Str.all_chars P s = Str.all_chars P a && Str.all_chars P b.
Proof.
  revert a. induction s as [|ch s IH]; intros a; cbn [Str.span_until].
  - by intros [= <- <-].
  - destruct (stop ch); [by intros [= <- <-]|].
    destruct (Str.span_until stop s) as [a' b'] eqn:E. intros [= <- <-].
    cbn [Str.all_chars]. by rewrite (IH a' eq_refl), andb_assoc.
Qed.

Lemma span_until_stop stop s a ch b :
  Str.span_until stop s = (a, String ch b) -> stop ch = true.
Proof.
  revert a. induction s as [|c0 s IH]; intros a; cbn [Str.span_until]; [discriminate|].
  destruct (stop c0) eqn:E; [by intros [= <- <- <-]|].
  destruct (Str.span_until stop s) as [a' b'] eqn:E'. intros [= <- ->]. by apply (IH a').
Qed.

Lemma digit_run_chars prev acc n s r :
  Num.digit_run prev acc n s = Some r ->
  Str.all_chars (fun ch => Str.is_digit ch || Ascii.eqb ch "_") s = true.
Proof.
  revert prev acc n. induction s as [|ch s IH]; intros prev acc n; [done|].
  cbn [Num.digit_run Str.all_chars]. destruct (Str.is_digit ch).
  - intros H. by rewrite (IH _ _ _ H).
  - destruct (Ascii.eqb ch "_"); [|discriminate].
    destruct prev; [|discriminate]. intros H. by rewrite (IH _ _ _ H).
Qed.

(** Facts about single characters, by cases on their eight bits. *)
Ltac by_ascii_cases ch :=
  destruct ch as [[] [] [] [] [] [] [] []]; vm_compute; (reflexivity || discriminate).

Lemma numeral_char_digit ch :
  Str.is_digit ch || Ascii.eqb ch "_" = true -> Num.numeral_char ch = true.
Proof. by_ascii_cases ch. Qed.

Lemma numeral_char_space ch : Str.is_c_space ch = true -> Num.numeral_char ch = true.
Proof. by_ascii_cases ch. Qed.

Lemma numeral_char_point ch : Ascii.eqb "." ch = true -> Num.numeral_char ch = true.
Proof. by_ascii_cases ch. Qed.

Lemma numeral_char_e ch : Num.is_e ch = true -> Num.numeral_char ch = true.
Proof. by_ascii_cases ch. Qed.

Lemma numeral_char_not_d ch :
  Num.numeral_char ch = true -> negb (Ascii.eqb ch "d") = true.
Proof. by_ascii_cases ch. Qed.

Lemma numeral_char_word ch :
  existsb (Ascii.eqb (Str.lower ch)) ["i"; "n"; "f"; "t"; "y"; "a"]%char = true ->
  Num.numeral_char ch = true.
Proof. by_ascii_cases ch. Qed.

Lemma digit_run_numeral prev acc n s r :
  Num.digit_run prev acc n s = Some r -> Str.all_chars Num.numeral_char s = true.
Proof.
  intros E. apply (all_chars_impl _ _ _ numeral_char_digit).
  by apply (digit_run_chars prev acc n s r).
Qed.

Lemma digits_numeral s n :
  Num.digits s = Some n -> Str.all_chars Num.numeral_char s = true.
Proof.
  unfold Num.digits. destruct (Num.digit_run false 0 0 s) as [r|] eqn:E; [|discriminate].
  intros _. by apply (digit_run_numeral false 0%Z 0 s r).
Qed.

Lemma opt_run_numeral s r :
  Num.opt_run s = Some r -> Str.all_chars Num.numeral_char s = true.
Proof. destruct s; [done|]. apply digit_run_numeral. Qed.

Lemma split_sign_numeral s minus body :
  Num.split_sign s = (minus, body) ->
  Str.all_chars Num.numeral_char body = true -> Str.all_chars Num.numeral_char s = true.
Proof.
  unfold Num.split_sign. destruct s as [|ch s]; [by intros [= <- <-]|].
  destruct (Ascii.eqb_spec ch "-") as [->|Hm].
  { intros [= <- <-] H. cbn [Str.all_chars]. by rewrite H. }
  destruct (Ascii.eqb_spec ch "+") as [->|Hp].
  { intros [= <- <-] H. cbn [Str.all_chars]. by rewrite H. }
  destruct ch as [[] [] [] [] [] [] [] []]; try (by intros [= <- <-]); congruence.
Qed.

Lemma int_of_str_numeral s n :
  Num.int_of_str s = inr n -> Str.all_chars Num.numeral_char s = true.
Proof.
  unfold Num.int_of_str. destruct (Num.split_sign (Str.strip s)) as [minus body] eqn:E.
  destruct (Num.digits body) as [m|] eqn:Ed; [|discriminate]. intros _.
  apply (all_chars_strip _ _ numeral_char_space).
  apply (split_sign_numeral _ _ _ E). by apply (digits_numeral body m).
Qed.

Lemma mantissa_numeral s q :
  Num.mantissa s = Some q -> Str.all_chars Num.numeral_char s = true.
Proof.
  unfold Num.mantissa. destruct (Str.span_until (Ascii.eqb ".") s) as [ip rest] eqn:E.
  rewrite (span_until_chars _ _ _ _ _ E). destruct rest as [|ch fp].
  - destruct (Num.digits ip) as [n|] eqn:Ed; [|discriminate]. intros _.
    by rewrite (digits_numeral ip n).
  - pose proof (span_until_stop _ _ _ _ _ E) as Hch.
    intros H.
    assert (exists r1 r2, Num.opt_run ip = Some r1 /\ Num.opt_run fp = Some r2)
      as (r1 & r2 & H1 & H2).
    { destruct ip as [|c1 ip], fp as [|c2 fp]; [discriminate H| | |];
        apply bind_Some in H as ([i k] & H1 & H);
        apply bind_Some in H as ([f k'] & H2 & _); eauto. }
    cbn [Str.all_chars].
    by rewrite (opt_run_numeral ip r1), (opt_run_numeral fp r2), (numeral_char_point ch).
Qed.

Lemma exponent_numeral s a e z :
  Str.span_until Num.is_e s = (a, e) -> Num.exponent e = Some z ->
  Str.all_chars Num.numeral_char e = true.
Proof.
  intros E. destruct e as [|ch r]; [done|]. cbn [Num.exponent].
  destruct (Num.split_sign r) as [minus body] eqn:Es.
  destruct (Num.digits body) as [n|] eqn:Ed; [|discriminate]. intros _.
  cbn [Str.all_chars]. rewrite (numeral_char_e ch (span_until_stop _ _ _ _ _ E)).
  apply (split_sign_numeral _ _ _ Es). by apply (digits_numeral body n).
Qed.

Lemma decimal_numeral s q :
  Num.decimal s = Some q -> Str.all_chars Num.numeral_char s = true.
Proof.
  unfold Num.decimal. destruct (Str.span_until Num.is_e s) as [m e] eqn:E.
  destruct (Num.mantissa m) as [q0|] eqn:Em; [|discriminate].
  destruct (Num.exponent e) as [z|] eqn:Ee; [|discriminate]. intros _.
  rewrite (span_until_chars _ _ _ _ _ E), (mantissa_numeral m q0 Em).
  exact (exponent_numeral s m e z E Ee).
Qed.

Lemma float_of_str_numeral s x :
  Num.float_of_str s = inr x -> Str.all_chars Num.numeral_char s = true.
Proof.
  unfold Num.float_of_str. destruct (Num.split_sign (Str.strip s)) as [minus body] eqn:E.
  intros H. apply (all_chars_strip _ _ numeral_char_space).
  apply (split_sign_numeral _ _ _ E).
  assert (forall word,
            String.eqb (Str.lower_str body) word = true ->
            Str.all_chars
              (fun ch => existsb (Ascii.eqb ch) ["i"; "n"; "f"; "t"; "y"; "a"]%char) word
            = true ->
            Str.all_chars Num.numeral_char body = true) as Hword.
  { intros word Hw Hall. apply String.eqb_eq in Hw. rewrite <- Hw in Hall.
    rewrite all_chars_lower in Hall.
    by apply (all_chars_impl _ _ _ numeral_char_word). }
  destruct (String.eqb (Str.lower_str body) "inf") eqn:E1; [by apply (Hword "inf")|].
  destruct (String.eqb (Str.lower_str body) "infinity") eqn:E2;
    [by apply (Hword "infinity")|].
  destruct (String.eqb (Str.lower_str body) "nan") eqn:E3; [by apply (Hword "nan")|].
  cbn [orb] in H.
  destruct (Num.decimal body) as [q|] eqn:Ed; [|discriminate H].
  by apply (decimal_numeral body q).
Qed.

(** No numeral holds the letter [d]. *)
Lemma numeral_no_d s :
  Str.all_chars Num.numeral_char s = true -> Str.no_char "d" s = true.
Proof. apply all_chars_impl, numeral_char_not_d. Qed.

(** A machine type [custom-<c>-<m>], with or without the [n2d-] prefix, is
    parsed to the pair of [int(c)] and [float(m) / 1024], for every [c]
    without a [-] that [int] accepts and every [m] that [float] accepts. *)
Lemma parse_machine_type_custom (cpus memory : string) (n : Z) (x : float) :
  Str.no_char "-" cpus = true ->
  Num.int_of_str cpus = inr n ->
  Num.float_of_str memory = inr x ->
  workflows._parse_machine_type ("custom-" +:+ cpus +:+ "-" +:+ memory)
    = inr (n, Float.div_pos x 1024)
  /\ workflows._parse_machine_type ("n2d-custom-" +:+ cpus +:+ "-" +:+ memory)
    = inr (n, Float.div_pos x 1024).
Proof.
  intros Hdash Hn Hx.
  pose proof (numeral_no_d _ (int_of_str_numeral _ _ Hn)) as Hc.
  pose proof (numeral_no_d _ (float_of_str_numeral _ _ Hx)) as Hm.
  assert (Str.replace ("custom-" +:+ cpus +:+ "-" +:+ memory) "n2d-" ""
          = "custom-" +:+ cpus +:+ "-" +:+ memory) as Hrep.
  { apply replace_n2d_id. unfold Str.no_char in *.
    rewrite !all_chars_app, Hc, Hm. reflexivity. }
  assert (Str.splitn "-" 2 ("custom-" +:+ cpus +:+ "-" +:+ memory)
          = ["custom"; cpus; memory]) as Hsplit.
  { change ("custom-" +:+ cpus +:+ "-" +:+ memory)
      with ("custom" +:+ String "-" (cpus +:+ String "-" memory)).
    rewrite splitn_at_sep by reflexivity.
    rewrite splitn_at_sep by exact Hdash.
    by rewrite splitn_zero. }
  assert (workflows._parse_machine_type ("custom-" +:+ cpus +:+ "-" +:+ memory)
          = inr (n, Float.div_pos x 1024)) as Hparse.
  { unfold workflows._parse_machine_type. rewrite Hrep, Hsplit.
    change (negb ("custom" =? "custom")%string) with false. cbv iota.
    by rewrite Hn, Hx. }
  split; [exact Hparse|].
  unfold workflows._parse_machine_type.
  change ("n2d-custom-" +:+ cpus +:+ "-" +:+ memory)
    with ("n2d-" +:+ ("custom-" +:+ cpus +:+ "-" +:+ memory)).
  rewrite replace_n2d_prefix. exact Hparse.
Qed.

Lemma int_of_str_error s e : Num.int_of_str s = inl e -> e = ValueError.
Proof.
  unfold Num.int_of_str. destruct (Num.split_sign _) as [minus body].
  destruct (Num.digits body); [discriminate|]. by intros [= <-].
Qed.

Lemma float_of_str_error s e : Num.float_of_str s = inl e -> e = ValueError.
Proof.
  unfold Num.float_of_str. destruct (Num.split_sign _) as [minus body].
  repeat (match goal with |- context [if ?b then _ else _] => destruct b end;
          [discriminate|]).
  destruct (Num.decimal body); [discriminate|]. by intros [= <-].
Qed.

(** The strings the parser accepts are those that, once every [n2d-] is
    removed, split into [custom], an integer and a number; it fails on any
    other string, and then with [TNUCostException]. *)
Lemma parse_machine_type_accepts s n x :
  workflows._parse_machine_type s = inr (n, x) <->
  exists p1 p2 y,
    Str.splitn "-" 2 (Str.replace s "n2d-" "") = ["custom"; p1; p2]
    /\ Num.int_of_str p1 = inr n /\ Num.float_of_str p2 = inr y
    /\ x = Float.div_pos y 1024.
Proof.
  unfold workflows._parse_machine_type. split.
  - destruct (Str.splitn "-" 2 _) as [|p0 [|p1 [|p2 [|]]]]; try discriminate.
    destruct (String.eqb_spec "custom" p0) as [<-|]; [|discriminate].
    cbn [negb]. cbv iota.
    destruct (Num.int_of_str p1) as [e1|n'] eqn:E1.
    { rewrite bind_raise. apply int_of_str_error in E1 as ->. discriminate. }
    rewrite bind_ok.
    destruct (Num.float_of_str p2) as [e2|y] eqn:E2.
    { rewrite bind_raise. apply float_of_str_error in E2 as ->. discriminate. }
    rewrite bind_ok. intros [= <- <-]. by exists p1, p2, y.
  - intros (p1 & p2 & y & -> & -> & -> & ->).
    by change (negb ("custom" =? "custom")%string) with false.
Qed.

Lemma parse_machine_type_fails s :
  (forall n x, workflows._parse_machine_type s <> inr (n, x)) ->
  cost_exception (workflows._parse_machine_type s).
Proof.
  intros Hno. unfold cost_exception.
  destruct (workflows._parse_machine_type s) as [e|[n x]] eqn:E; [|by destruct (Hno n x)].
  unfold workflows._parse_machine_type in E.
  destruct (Str.splitn "-" 2 _) as [|p0 [|p1 [|p2 [|]]]];
    try (injection E as <-; by eexists).
  destruct (negb _); [injection E as <-; by eexists|].
  destruct (Num.int_of_str p1) as [e1|n'] eqn:E1.
  { rewrite bind_raise in E. apply int_of_str_error in E1 as ->.
    injection E as <-. by eexists. }
  rewrite bind_ok in E.
  destruct (Num.float_of_str p2) as [e2|y] eqn:E2; [|discriminate E].
  rewrite bind_raise in E. apply float_of_str_error in E2 as ->.
  injection E as <-. by eexists.
Qed.

Example parse_machine_type_samples :
  workflows._parse_machine_type "custom-4-15360" = inr (4%Z, Finite 15) /\
  workflows._parse_machine_type "n2d-custom-8-32768" = inr (8%Z, Finite 32) /\
  cost_exception (workflows._parse_machine_type "n1-standard-4") /\
  cost_exception (workflows._parse_machine_type "custom-4") /\
  cost_exception (workflows._parse_machine_type "custom-four-1024") /\
  cost_exception (workflows._parse_machine_type "N2D-custom-4-1024").
Proof. repeat split; vm_compute; eauto. Qed.

(** C1.  The parser removes [n2d-] wherever it occurs, not only in front:
    ["custom-n2d-4-1024"] has neither of the two accepted shapes (its
    second part [n2d] is no integer), and ["n2d-n2d-custom-4-1024"] does
    not read [custom] after one prefix, yet both are parsed to 4 CPUs and
    1 GiB instead of failing with [TNUCostException]. *)
Theorem parse_machine_type_strips_inner_marker :
  workflows._parse_machine_type "custom-n2d-4-1024" = inr (4%Z, Finite 1) /\
  workflows._parse_machine_type "n2d-n2d-custom-4-1024" = inr (4%Z, Finite 1) /\
  Str.startswith "custom-n2d-4-1024" "n2d-" = false /\
  Num.int_of_str "n2d" = inl ValueError.
Proof. repeat split; vm_compute; reflexivity. Qed.

(** ** One call attempt *)

(** Use the outcome [E] of the next read of a chain. *)
Ltac read_with E := rewrite E, ?bind_ok; cbv beta.

Lemma task_index name :
  py_index (Str.split "." name) 1
  = match task_of name with Some t => inr t | None => inl IndexError end.
Proof. reflexivity. Qed.

Example task_name_extraction : task_of "MyWorkflow.alignReads" = Some "alignReads".
Proof. reflexivity. Qed.

(** A call name without a dot has no second component. *)
Lemma task_of_no_dot name : Str.no_char "." name = true -> task_of name = None.
Proof.
  intros H. unfold task_of, Str.split.
  by rewrite (splitn_no_sep _ _ _ H).
Qed.

Section attempts.
Variable c : costs.

Lemma attempt_record_no_task name cm :
  task_of name = None -> workflows.attempt_record c name cm = inl IndexError.
Proof.
  intros H. unfold workflows.attempt_record. by rewrite task_index, H.
Qed.

Lemma attempt_record_cached name cm task n :
  task_of name = Some task -> cache_hit cm = inr n -> n <> 0%Z ->
  workflows.attempt_record c name cm = inr (cached_record task).
Proof.
  intros Ht Hhit Hn. unfold workflows.attempt_record.
  rewrite task_index, Ht, bind_ok.
  apply bind_inr in Hhit as (hv & E1 & E2). read_with E1. read_with E2.
  unfold py_bool. by apply Z.eqb_neq in Hn as ->.
Qed.

(** A well-formed attempt that is not cached yields the record of the
    values it provides. *)
Lemma attempt_record_not_cached name cm task v :
  task_of name = Some task -> cache_hit cm = inr 0%Z -> provides cm v ->
  workflows.attempt_record c name cm = inr (record_of c task v).
Proof.
  intros Ht Hhit (Hmt & Hparse & Hstart & Hend & Hpre & Hbs & Hdd & Hsize & Hcp).
  unfold workflows.attempt_record.
  rewrite task_index, Ht, bind_ok.
  apply bind_inr in Hhit as (hv & E1 & E2). read_with E1. read_with E2.
  change (py_bool 0) with false. cbv iota.
  read_with Hmt. change (str_method (JStr ?s)) with (@inr exn _ s).
  rewrite bind_ok. read_with Hparse.
  apply bind_inr in Hstart as (s0 & Hstart & Et0).
  apply bind_inr in Hstart as (j0 & Ej0 & Es0).
  read_with Ej0. read_with Es0. read_with Et0.
  apply bind_inr in Hend as (s1 & Hend & Et1).
  apply bind_inr in Hend as (j1 & Ej1 & Es1).
  read_with Ej1. read_with Es1. read_with Et1.
  apply bind_inr in Hpre as (pv & Epv & Ep).
  read_with Epv. read_with Ep. read_with Hbs.
  unfold disk_descriptor in Hdd. read_with Hdd.
  change (str_method (JStr ?s)) with (@inr exn _ s).
  rewrite bind_ok. read_with Hsize. read_with Hcp.
  reflexivity.
Qed.

(** Conversely, a record whose call is not cached comes from an attempt
    that provides every value read. *)
Lemma attempt_record_not_cached_inv name cm r :
  workflows.attempt_record c name cm = inr r -> call_cached r = false ->
  exists task v,
    task_of name = Some task /\ cache_hit cm = inr 0%Z /\ provides cm v
    /\ r = record_of c task v.
Proof.
  intros H Hnc. unfold workflows.attempt_record in H.
  rewrite task_index in H.
  destruct (task_of name) as [task|] eqn:Ht; [|discriminate H].
  rewrite bind_ok in H.
  apply bind_inr in H as (hv & Ehv & H).
  apply bind_inr in H as (n & En & H).
  destruct (py_bool n) eqn:Hn.
  { injection H as <-. discriminate Hnc. }
  assert (n = 0%Z) as -> by (unfold py_bool in Hn; apply negb_false_iff, Z.eqb_eq in Hn; exact Hn).
  apply bind_inr in H as (mtv & Emtv & H).
  apply bind_inr in H as (mt & Emt & H).
  destruct mtv; try discriminate Emt. injection Emt as ->.
  apply bind_inr in H as ([cpus mem] & Eparse & H).
  apply bind_inr in H as (j0 & Ej0 & H).
  apply bind_inr in H as (s0 & Es0 & H).
  apply bind_inr in H as (t0 & Et0 & H).
  apply bind_inr in H as (j1 & Ej1 & H).
  apply bind_inr in H as (s1 & Es1 & H).
  apply bind_inr in H as (t1 & Et1 & H).
  apply bind_inr in H as (pv & Epv & H).
  apply bind_inr in H as (p & Ep & H).
  apply bind_inr in H as (bs & Ebs & H).
  apply bind_inr in H as (ddv & Eddv & H).
  apply bind_inr in H as (dd & Edd & H).
  destruct ddv; try discriminate Edd. injection Edd as ->.
  apply bind_inr in H as (size & Esize & H).
  apply bind_inr in H as (cp & Ecp & H).
  injection H as <-.
  exists task,
    {| read_machine_type := mt; read_cpus := cpus; read_memory_gb := mem;
       read_start := t0; read_end := t1; read_preemptible := p;
       read_backendStatus := bs; read_disk_description := dd;
       read_disk_size_gb := size; read_cpuplatform := cp |}.
  split; [done|]. split.
  { unfold cache_hit. by rewrite Ehv, bind_ok. }
  split; [|reflexivity].
  unfold provides, preemptible_flag, disk_descriptor. cbn [read_machine_type read_cpus
    read_memory_gb read_start read_end read_preemptible read_backendStatus
    read_disk_description read_disk_size_gb read_cpuplatform].
  rewrite Emtv, Ej0, Ej1, Epv, Eddv, !bind_ok, Es0, Es1, !bind_ok.
  by repeat split.
Qed.

(** What one iteration contributes, by the outcome of the [try] body. *)
Lemma estimate_attempt_subworkflow wid name cm :
  has_key "subWorkflowId" cm = true ->
  workflows.estimate_attempt c wid name cm = run_done.
Proof. intros H. unfold workflows.estimate_attempt. by rewrite H. Qed.

Lemma estimate_attempt_yield wid name cm r :
  has_key "subWorkflowId" cm = false ->
  workflows.attempt_record c name cm = inr r ->
  workflows.estimate_attempt c wid name cm = run_emit (Yield r).
Proof. intros H E. unfold workflows.estimate_attempt. by rewrite H, E. Qed.

Lemma estimate_attempt_caught wid name cm e msg :
  has_key "subWorkflowId" cm = false ->
  workflows.attempt_record c name cm = inl e -> caught e = Some msg ->
  workflows.estimate_attempt c wid name cm
  = run_emit (Warning (workflows.warning_text wid msg)).
Proof.
  intros H E Hc. unfold workflows.estimate_attempt. rewrite H, E.
  by destruct e; simplify_eq/=.
Qed.

Lemma estimate_attempt_uncaught wid name cm e :
  has_key "subWorkflowId" cm = false ->
  workflows.attempt_record c name cm = inl e -> caught e = None ->
  workflows.estimate_attempt c wid name cm = run_raise e.
Proof.
  intros H E Hc. unfold workflows.estimate_attempt. rewrite H, E.
  by destruct e; simplify_eq/=.
Qed.

(** An iteration that yields a record ran the [try] body to its end. *)
Lemma estimate_attempt_yield_inv wid name cm r :
  workflows.estimate_attempt c wid name cm = run_emit (Yield r) ->
  has_key "subWorkflowId" cm = false /\ workflows.attempt_record c name cm = inr r.
Proof.
  unfold workflows.estimate_attempt.
  destruct (has_key "subWorkflowId" cm); [discriminate|].
  destruct (workflows.attempt_record c name cm) as [[]|r']; try discriminate.
  by intros [= ->].
Qed.

End attempts.

(** ** Cached call attempts *)

(** C2, as stated, fails for a call name without a dot: the task name is
    derived (line 73) before the cache-hit indicator is read, so the cached
    attempt under the call name ["hello"] yields no record; the generator
    ends with [IndexError]. *)
Lemma cached_attempt_without_task_name :
  has_key "subWorkflowId" sample.cached_attempt = false /\
  cache_hit sample.cached_attempt = inr 1%Z /\
  workflows.estimate_workflow_cost sample.prices "wf"
    {| calls := Some [("hello", [sample.cached_attempt])] |}
  = {| events := []; raised := Some IndexError |}.
Proof. repeat split; reflexivity. Qed.

(** C2, amended.  For every call attempt that is not a sub-workflow
    reference, whose call name has a second dot-separated component (the
    task name) and whose cache-hit indicator parses to a nonzero integer,
    the iteration yields exactly one record, with cost 0.0, 0 CPUs, memory
    0.0, duration 0.0, disk 0.0, preempted ["NA"] and machine type ["NA"],
    whatever else the attempt holds.  In a run over a workflow this record
    follows the events of the attempts before it. *)
Theorem cached_attempt_record (c : costs) (wid name task : string) (cm : dict) (n : Z) :
  has_key "subWorkflowId" cm = false ->
  task_of name = Some task ->
  cache_hit cm = inr n -> n <> 0%Z ->
  let r :=
    {| task_name := task; cost := Finite 0; number_of_cpus := 0;
       memory := Finite 0; disk := Finite 0; duration := Finite 0;
       call_cached := true; preempted := PyStr "NA"; machine_type := "NA" |} in
  workflows.estimate_attempt c wid name cm = run_emit (Yield r) /\
  forall before l1 l2 after,
    workflows.estimate_workflow_cost c wid
      {| calls := Some (before ++ (name, l1 ++ cm :: l2) :: after) |}
    = run_seq
        (workflows.estimate_workflow_cost c wid
           {| calls := Some (before ++ [(name, l1)]) |})
        (run_seq (run_emit (Yield r))
           (workflows.estimate_workflow_cost c wid
              {| calls := Some ((name, l2) :: after) |})).
Proof.
  intros Hsub Ht Hhit Hn r.
  assert (workflows.estimate_attempt c wid name cm = run_emit (Yield r)) as E.
  { apply estimate_attempt_yield; [done|].
    by apply (attempt_record_cached c name cm task n). }
  split; [exact E|].
  intros. by rewrite estimate_workflow_cost_at, E.
Qed.

Lemma cached_attempt_record_witness :
  workflows.estimate_attempt sample.prices "wf" "Align.sort" sample.cached_attempt
  = run_emit (Yield (cached_record "sort")).
Proof.
  apply (cached_attempt_record sample.prices "wf" "Align.sort" "sort"
           sample.cached_attempt 1); [reflexivity | reflexivity | reflexivity | discriminate].
Defined.

(** ** Call names without a dot *)

(** C10.  For a call attempt that is not a sub-workflow reference and
    whose call name holds no dot, deriving the task name raises
    [IndexError]; the [except] clause does not catch it, so it ends the
    generator: nothing is produced for this attempt or for any later one. *)
Theorem call_name_without_dot_ends_run (c : costs) (wid name : string) (cm : dict) :
  has_key "subWorkflowId" cm = false ->
  Str.no_char "." name = true ->
  workflows.attempt_record c name cm = inl IndexError /\
  caught IndexError = None /\
  workflows.estimate_attempt c wid name cm = run_raise IndexError /\
  forall before l1 l2 after,
    workflows.estimate_workflow_cost c wid
      {| calls := Some (before ++ (name, l1 ++ cm :: l2) :: after) |}
    = run_seq
        (workflows.estimate_workflow_cost c wid
           {| calls := Some (before ++ [(name, l1)]) |})
        (run_raise IndexError).
Proof.
  intros Hsub Hname.
  assert (workflows.attempt_record c name cm = inl IndexError) as E
    by (by apply attempt_record_no_task, task_of_no_dot).
  assert (workflows.estimate_attempt c wid name cm = run_raise IndexError) as E'
    by (by apply estimate_attempt_uncaught).
  repeat split; [exact E | exact E' |].
  intros. rewrite estimate_workflow_cost_at, E'.
  by rewrite run_seq_assoc, run_seq_raise.
Qed.

Lemma call_name_without_dot_ends_run_witness :
  workflows.estimate_workflow_cost sample.prices "wf"
    {| calls := Some [("Align.sort", [sample.done_attempt]);
                      ("hello", [sample.cached_attempt; sample.done_attempt]);
                      ("Align.merge", [sample.done_attempt])] |}
  = run_seq
      (workflows.estimate_workflow_cost sample.prices "wf"
         {| calls := Some [("Align.sort", [sample.done_attempt]); ("hello", [])] |})
      (run_raise IndexError).
Proof.
  pose proof (call_name_without_dot_ends_run sample.prices "wf" "hello"
                sample.cached_attempt eq_refl eq_refl) as (_ & _ & _ & H).
  exact (H [("Align.sort", [sample.done_attempt])] [] [sample.done_attempt]
           [("Align.merge", [sample.done_attempt])]).
Defined.

(** ** Attempts that are skipped *)

Lemma js_get_required key cm :
  utils.lookup_path (Str.split "." key) (JObj cm) = None ->
  utils.js_get key cm None = inl (KeyError ("'" +:+ key +:+ "' not found")).
Proof. intros H. unfold utils.js_get. by rewrite H. Qed.

Section skipped.
Variable c : costs.

(** An attempt without a [start] field that is not cached and has a
    machine type the parser accepts fails with the missing-field error. *)
Lemma attempt_record_missing_start name cm task mt cpus mem :
  task_of name = Some task -> cache_hit cm = inr 0%Z ->
  utils.js_get "jes.machineType" cm None = inr (JStr mt) ->
  workflows._parse_machine_type mt = inr (cpus, mem) ->
  dict_get "start" cm = None ->
  workflows.attempt_record c name cm = inl (KeyError "'start' not found").
Proof.
  intros Ht Hhit Hmt Hparse Hstart. unfold workflows.attempt_record.
  rewrite task_index, Ht, bind_ok.
  apply bind_inr in Hhit as (hv & E1 & E2). read_with E1. read_with E2.
  change (py_bool 0) with false. cbv iota.
  read_with Hmt. change (str_method (JStr ?s)) with (@inr exn _ s).
  rewrite bind_ok. read_with Hparse.
  rewrite (js_get_required "start" cm); [reflexivity|].
  change (Str.split "." "start") with ["start"].
  cbn [utils.lookup_path]. by rewrite Hstart.
Qed.

End skipped.

(** C3.  When the processing of a call attempt raises a missing-field
    error ([KeyError]) or a machine-type error ([TNUCostException]), the
    iteration logs one warning that names the workflow and carries the
    message of the exception, and yields no record; the run over the
    workflow goes on with the attempts after it exactly as a run that
    starts there.  An attempt without the required [start] field, met
    after its machine type was read, is such an attempt. *)
Theorem failed_attempt_is_skipped (c : costs) (wid name : string) (cm : dict) :
  has_key "subWorkflowId" cm = false ->
  (forall e msg,
     workflows.attempt_record c name cm = inl e -> caught e = Some msg ->
     workflows.estimate_attempt c wid name cm
     = run_emit (Warning ("Unable to estimate costs for workflow " +:+ wid +:+ ": " +:+ msg))
     /\ yielded (workflows.estimate_attempt c wid name cm) = []
     /\ warnings (workflows.estimate_attempt c wid name cm)
        = ["Unable to estimate costs for workflow " +:+ wid +:+ ": " +:+ msg]
     /\ forall before l1 l2 after,
         workflows.estimate_workflow_cost c wid
           {| calls := Some (before ++ (name, l1 ++ cm :: l2) :: after) |}
         = run_seq
             (workflows.estimate_workflow_cost c wid
                {| calls := Some (before ++ [(name, l1)]) |})
             (run_seq
                (run_emit (Warning ("Unable to estimate costs for workflow "
                                    +:+ wid +:+ ": " +:+ msg)))
                (workflows.estimate_workflow_cost c wid
                   {| calls := Some ((name, l2) :: after) |})))
  /\ (forall task mt cpus mem,
        task_of name = Some task -> cache_hit cm = inr 0%Z ->
        utils.js_get "jes.machineType" cm None = inr (JStr mt) ->
        workflows._parse_machine_type mt = inr (cpus, mem) ->
        dict_get "start" cm = None ->
        exists msg,
          workflows.attempt_record c name cm = inl (KeyError msg)
          /\ workflows.estimate_attempt c wid name cm
             = run_emit (Warning ("Unable to estimate costs for workflow "
                                  +:+ wid +:+ ": " +:+ msg))).
Proof.
  intros Hsub. split.
  - intros e msg He Hc.
    assert (workflows.estimate_attempt c wid name cm
            = run_emit (Warning (workflows.warning_text wid msg))) as E
      by (by apply (estimate_attempt_caught c wid name cm e)).
    split; [exact E|]. split; [by rewrite E|]. split; [by rewrite E|].
    intros. by rewrite estimate_workflow_cost_at, E.
  - intros task mt cpus mem Ht Hhit Hmt Hparse Hstart.
    pose proof (attempt_record_missing_start c name cm task mt cpus mem
                  Ht Hhit Hmt Hparse Hstart) as He.
    exists "'start' not found". split; [exact He|].
    by apply (estimate_attempt_caught c wid name cm _ _ Hsub He).
Qed.

Lemma failed_attempt_is_skipped_witness :
  workflows.estimate_workflow_cost sample.prices "wf"
    {| calls := Some [("Align.sort", [sample.no_start_attempt; sample.done_attempt])] |}
  = {| events :=
         [Warning "Unable to estimate costs for workflow wf: 'start' not found";
          Yield (record_of sample.prices "sort" sample.done_reads)];
       raised := None |}.
Proof.
  pose proof (failed_attempt_is_skipped sample.prices "wf" "Align.sort"
                sample.no_start_attempt eq_refl) as [H1 H2].
  destruct (H2 "sort" "custom-4-15360" 4%Z (Finite 15)
              eq_refl eq_refl eq_refl eq_refl eq_refl) as (msg & He & _).
  destruct (H1 _ msg He eq_refl) as (_ & _ & _ & H).
  specialize (H [] [] [sample.done_attempt] []).
  cbn [app] in H. rewrite H.
  assert (msg = "'start' not found") as -> by (by injection He).
  reflexivity.
Defined.

(** ** Exceptions that end the run *)

(** C6, as stated, fails: a [start] time without a fraction of a second
    does not match the date format, [strptime] raises [ValueError], which
    the [except] clause does not catch; the run ends there, and the
    well-formed attempt after it, which yields a record on its own, yields
    none. *)
Lemma bad_timestamp_ends_run :
  workflows.estimate_workflow_cost sample.prices "wf"
    {| calls := Some [("Align.sort", [sample.whole_second_attempt; sample.done_attempt])] |}
  = {| events := []; raised := Some ValueError |}
  /\ workflows.estimate_workflow_cost sample.prices "wf"
       {| calls := Some [("Align.sort", [sample.done_attempt])] |}
     = {| events := [Yield (record_of sample.prices "sort" sample.done_reads)];
          raised := None |}.
Proof. split; reflexivity. Qed.

Section normal_runs.
Variables (c : costs) (wid : string).

Lemma estimate_attempt_normal name cm :
  (forall e, workflows.attempt_record c name cm = inl e -> is_Some (caught e)) ->
  raised (workflows.estimate_attempt c wid name cm) = None.
Proof.
  intros H. unfold workflows.estimate_attempt.
  destruct (has_key "subWorkflowId" cm); [done|].
  destruct (workflows.attempt_record c name cm) as [e|r]; [|done].
  destruct (H e eq_refl) as [msg Hmsg]. by destruct e.
Qed.

Lemma yielded_elem (r : cost_record) (a : run) :
  r ∈ yielded a <-> Yield r ∈ events a.
Proof.
  unfold yielded. rewrite list_elem_of_omap. split.
  - intros ([r'|m] & Hin & Hr); [|discriminate Hr]. by injection Hr as ->.
  - intros Hin. by exists (Yield r).
Qed.

End normal_runs.

(** C6, amended.  The run over a workflow does not end on an attempt whose
    processing raises [KeyError] or [TNUCostException]: when every attempt
    that fails does so with one of these two, the run ends normally and
    holds the record of every attempt that has one.  Any other exception
    ([IndexError], [ValueError], [TypeError], [AttributeError],
    [OverflowError]) raised for an attempt ends the run at that attempt, so
    that no later attempt is processed. *)
Theorem run_ends_on_uncaught_only (c : costs) (wid : string) :
  (forall cs,
     (forall name l cm e,
        (name, l) ∈ cs -> cm ∈ l -> has_key "subWorkflowId" cm = false ->
        workflows.attempt_record c name cm = inl e -> is_Some (caught e)) ->
     raised (workflows.estimate_workflow_cost c wid {| calls := Some cs |}) = None
     /\ forall name l cm r,
          (name, l) ∈ cs -> cm ∈ l -> has_key "subWorkflowId" cm = false ->
          workflows.attempt_record c name cm = inr r ->
          r ∈ yielded (workflows.estimate_workflow_cost c wid {| calls := Some cs |}))
  /\ (forall name cm e before l1 l2 after,
        has_key "subWorkflowId" cm = false ->
        workflows.attempt_record c name cm = inl e -> caught e = None ->
        workflows.estimate_workflow_cost c wid
          {| calls := Some (before ++ (name, l1 ++ cm :: l2) :: after) |}
        = run_seq
            (workflows.estimate_workflow_cost c wid
               {| calls := Some (before ++ [(name, l1)]) |})
            (run_raise e)).
Proof.
  split.
  - intros cs Hcs.
    set (body := fun '(call_name, l) =>
                   run_for (workflows.estimate_attempt c wid call_name) l).
    assert (forall p, p ∈ cs ->
              raised (body p) = None /\
              events (body p)
              = p.2 ≫= (fun cm => events (workflows.estimate_attempt c wid p.1 cm)))
      as Hinner.
    { intros [name l] Hin. apply run_for_normal. intros cm Hcm.
      destruct (has_key "subWorkflowId" cm) eqn:Hsub.
      - by rewrite estimate_attempt_subworkflow.
      - apply estimate_attempt_normal. intros e He.
        unfold workflows.estimate_attempt in *. eauto. }
    destruct (run_for_normal body cs) as [Hr Hev]; [intros p Hp; by apply Hinner|].
    change (workflows.estimate_workflow_cost c wid {| calls := Some cs |})
      with (run_for body cs).
    split; [exact Hr|].
    intros name l cm r Hin Hcm Hsub Hrec.
    apply yielded_elem. rewrite Hev.
    apply list_elem_of_bind. exists (name, l). split; [|exact Hin].
    destruct (Hinner _ Hin) as [_ ->]. simpl.
    apply list_elem_of_bind. exists cm. split; [|exact Hcm].
    rewrite (estimate_attempt_yield c wid name cm r Hsub Hrec). by left.
  - intros name cm e before l1 l2 after Hsub He Hc.
    rewrite estimate_workflow_cost_at.
    rewrite (estimate_attempt_uncaught c wid name cm e Hsub He Hc).
    by rewrite run_seq_assoc, run_seq_raise.
Qed.

Lemma run_ends_on_uncaught_only_witness :
  raised (workflows.estimate_workflow_cost sample.prices "wf"
            {| calls := Some [("Align.sort",
                               [sample.no_start_attempt; sample.done_attempt])] |})
  = None
  /\ workflows.estimate_workflow_cost sample.prices "wf"
       {| calls := Some [("Align.sort",
                          [sample.whole_second_attempt; sample.done_attempt])] |}
     = run_raise ValueError.
Proof.
  destruct (run_ends_on_uncaught_only sample.prices "wf") as [H1 H2]. split.
  - apply H1. intros name l cm e Hin Hcm Hsub He.
    apply list_elem_of_singleton in Hin. injection Hin as -> ->.
    apply elem_of_cons in Hcm as [->|Hcm].
    + vm_compute in He. injection He as <-. by eexists.
    + apply list_elem_of_singleton in Hcm as ->. vm_compute in He. discriminate He.
  - exact (H2 "Align.sort" sample.whole_second_attempt ValueError
             [] [] [sample.done_attempt] [] eq_refl eq_refl eq_refl).
Defined.

(** ** Preemption *)

Lemma js_get_backend_status cm bs :
  utils.js_get "backendStatus" cm None = inr bs <-> dict_get "backendStatus" cm = Some bs.
Proof.
  unfold utils.js_get. change (Str.split "." "backendStatus") with ["backendStatus"].
  cbn [utils.lookup_path]. destruct (dict_get "backendStatus" cm) as [v|].
  - split; intros H; by injection H as ->.
  - split; intros H; discriminate H.
Qed.

Lemma eq_str_spec (v : json) (s : string) : eq_str v s = true <-> v = JStr s.
Proof.
  destruct v; simpl; try (split; intros H; discriminate H).
  rewrite String.eqb_eq. split; [by intros -> | by intros [= ->]].
Qed.

(** C4, as stated, fails: the backend status is read before the
    preemptible flag is tested, so a well-formed attempt that is not
    preemptible and lacks the field is skipped with a warning instead of
    yielding a record. *)
Lemma backend_status_is_required :
  has_key "subWorkflowId" sample.no_status_attempt = false /\
  cache_hit sample.no_status_attempt = inr 0%Z /\
  preemptible_flag sample.no_status_attempt = inr 0%Z /\
  dict_get "backendStatus" sample.no_status_attempt = None /\
  workflows.estimate_attempt sample.prices "wf" "Align.sort" sample.no_status_attempt
  = run_emit (Warning "Unable to estimate costs for workflow wf: 'backendStatus' not found").
Proof. repeat split; reflexivity. Qed.

(** C4, amended.  For every call attempt that is not cached and whose
    preemptible flag parses to zero, the record yielded has preempted
    ["NA"] whatever the backend status is; the backend-status field is
    required all the same: every attempt that yields a record has it, and
    an attempt that is not cached and lacks it yields no record. *)
Theorem not_preemptible_record (c : costs) (wid name : string) (cm : dict) :
  (forall r,
     workflows.estimate_attempt c wid name cm = run_emit (Yield r) ->
     call_cached r = false ->
     preemptible_flag cm = inr 0%Z ->
     preempted r = PyStr "NA" /\ exists bs, dict_get "backendStatus" cm = Some bs)
  /\ (cache_hit cm = inr 0%Z ->
      dict_get "backendStatus" cm = None ->
      yielded (workflows.estimate_attempt c wid name cm) = []).
Proof.
  split.
  - intros r Hr Hnc Hp.
    apply estimate_attempt_yield_inv in Hr as [Hsub Hr].
    apply attempt_record_not_cached_inv in Hr as (task & v & Ht & Hhit & Hv & ->); [|done].
    destruct Hv as (_ & _ & _ & _ & Hpre & Hbs & _).
    rewrite Hp in Hpre. injection Hpre as Hpre.
    split; [unfold record_of; cbn [preempted]; by rewrite <- Hpre|].
    exists (read_backendStatus v).
    by apply js_get_backend_status.
  - intros Hhit Hbs. unfold workflows.estimate_attempt.
    destruct (has_key "subWorkflowId" cm); [done|].
    destruct (workflows.attempt_record c name cm) as [e|r] eqn:Hr.
    + by destruct e.
    + exfalso. destruct (call_cached r) eqn:Hcached.
      * unfold workflows.attempt_record in Hr.
        apply bind_inr in Hr as (task & _ & Hr).
        apply bind_inr in Hhit as (hv & E1 & E2).
        rewrite E1, bind_ok, E2, bind_ok in Hr.
        change (py_bool 0) with false in Hr. cbv iota in Hr.
        repeat (let a := fresh in let E := fresh in
                apply bind_inr in Hr as (a & E & Hr);
                try (destruct a as [? ?])).
        injection Hr as <-. discriminate Hcached.
      * apply attempt_record_not_cached_inv in Hr as (task & v & _ & _ & Hv & _); [|done].
        destruct Hv as (_ & _ & _ & _ & _ & Hbs' & _).
        apply js_get_backend_status in Hbs'. congruence.
Qed.

Lemma not_preemptible_record_witness :
  preempted (record_of sample.prices "sort" sample.done_reads) = PyStr "NA"
  /\ yielded (workflows.estimate_attempt sample.prices "wf" "Align.sort"
                sample.no_status_attempt) = [].
Proof.
  destruct (not_preemptible_record sample.prices "wf" "Align.sort" sample.done_attempt)
    as [H1 _].
  destruct (not_preemptible_record sample.prices "wf" "Align.sort" sample.no_status_attempt)
    as [_ H2].
  split.
  - exact (proj1 (H1 (record_of sample.prices "sort" sample.done_reads)
                    eq_refl eq_refl eq_refl)).
  - exact (H2 eq_refl eq_refl).
Defined.

(** C8.  For every call attempt that is not cached and whose preemptible
    flag parses to a nonzero integer, the record yielded has preempted
    [True] when the backend status equals ["Preempted"] and [False] for
    any other backend status. *)
Theorem preemptible_record (c : costs) (wid name : string) (cm : dict)
    (r : cost_record) (n : Z) :
  workflows.estimate_attempt c wid name cm = run_emit (Yield r) ->
  call_cached r = false ->
  preemptible_flag cm = inr n -> n <> 0%Z ->
  exists bs,
    dict_get "backendStatus" cm = Some bs
    /\ (bs = JStr "Preempted" -> preempted r = PyBool true)
    /\ (bs <> JStr "Preempted" -> preempted r = PyBool false).
Proof.
  intros Hr Hnc Hp Hn.
  apply estimate_attempt_yield_inv in Hr as [Hsub Hr].
  apply attempt_record_not_cached_inv in Hr as (task & v & Ht & Hhit & Hv & ->); [|done].
  destruct Hv as (_ & _ & _ & _ & Hpre & Hbs & _).
  rewrite Hp in Hpre. injection Hpre as Hpre.
  exists (read_backendStatus v). split; [by apply js_get_backend_status|].
  unfold record_of. cbn [preempted]. rewrite <- Hpre.
  unfold py_bool. apply Z.eqb_neq in Hn as ->. cbn [negb].
  split.
  - intros Hbs'. by apply eq_str_spec in Hbs' as ->.
  - intros Hbs'. destruct (eq_str (read_backendStatus v) "Preempted") eqn:E; [|done].
    by apply eq_str_spec in E.
Qed.

Lemma preemptible_record_witness :
  exists bs,
    dict_get "backendStatus" sample.preempted_attempt = Some bs
    /\ (bs = JStr "Preempted" ->
        preempted (record_of sample.prices "sort" sample.preempted_reads) = PyBool true)
    /\ (bs <> JStr "Preempted" ->
        preempted (record_of sample.prices "sort" sample.preempted_reads) = PyBool false).
Proof.
  apply (preemptible_record sample.prices "wf" "Align.sort" sample.preempted_attempt _ 3);
    [reflexivity | reflexivity | reflexivity | discriminate].
Defined.

(** ** Disks *)

Lemma disk_size_local_disk dd x :
  Str.startswith dd "local-disk" = true ->
  workflows.disk_size dd = inr x ->
  exists a b z, Str.words dd = [a; b; z] /\ Num.float_of_str b = inr x.
Proof.
  unfold workflows.disk_size. intros ->.
  destruct (Str.words dd) as [|a [|b [|z [|]]]]; try discriminate.
  intros H. by exists a, b, z.
Qed.

Lemma disk_size_default dd x :
  Str.startswith dd "local-disk" = false ->
  workflows.disk_size dd = inr x -> x = Finite 1.
Proof. unfold workflows.disk_size. intros ->. by intros [= <-]. Qed.

(** C7.  For every call attempt that is not cached and yields a record,
    with [dd] the disk descriptor read (the empty string when the field is
    missing): when [dd] starts with ["local-disk"] it has three
    whitespace-separated tokens and the middle one, as a number, is the
    disk size of the record; otherwise the disk size is 1.0; the cost is
    the price of the instance plus the price of the disk, taken from the
    local-SSD price function exactly when [dd] ends with ["LOCAL"] and from
    the persistent-disk price function otherwise.  So ["local-disk 50 SSD"]
    gives 50.0 at the persistent-disk price, ["local-disk 50 LOCAL"] gives
    50.0 at the local-SSD price, and an empty or missing descriptor gives
    1.0 at the persistent-disk price. *)
Theorem disk_size_and_price (c : costs) (wid name : string) (cm : dict) (r : cost_record) :
  workflows.estimate_attempt c wid name cm = run_emit (Yield r) ->
  call_cached r = false ->
  exists dd cp p,
    disk_descriptor cm = inr (JStr dd)
    /\ utils.js_get "runtimeAttributes.cpuPlatform" cm (Some (JStr "")) = inr cp
    /\ preemptible_flag cm = inr p
    /\ (utils.lookup_path ["runtimeAttributes"; "disks"] (JObj cm) = None -> dd = "")
    /\ (Str.startswith dd "local-disk" = true ->
        exists a b z, Str.words dd = [a; b; z] /\ Num.float_of_str b = inr (disk r))
    /\ (Str.startswith dd "local-disk" = false -> disk r = Finite 1)
    /\ cost r
       = Float.add
           (workflows.instance_cost c cp (number_of_cpus r) (memory r) (duration r)
              (py_bool p))
           (if Str.endswith dd "LOCAL"
            then LocalSSDDisk_estimate c (disk r) (duration r)
            else PersistentDisk_estimate c (disk r) (duration r))
    /\ (dd = "local-disk 50 SSD" ->
        disk r = Finite 50 /\ Str.endswith dd "LOCAL" = false)
    /\ (dd = "local-disk 50 LOCAL" ->
        disk r = Finite 50 /\ Str.endswith dd "LOCAL" = true)
    /\ (dd = "" -> disk r = Finite 1 /\ Str.endswith dd "LOCAL" = false).
Proof.
  intros Hr Hnc.
  apply estimate_attempt_yield_inv in Hr as [Hsub Hr].
  apply attempt_record_not_cached_inv in Hr as (task & v & Ht & Hhit & Hv & ->); [|done].
  destruct Hv as (_ & _ & _ & _ & Hpre & _ & Hdd & Hsize & Hcp).
  exists (read_disk_description v), (read_cpuplatform v), (read_preemptible v).
  unfold record_of; cbn [disk cost number_of_cpus memory duration].
  split; [exact Hdd|]. split; [exact Hcp|]. split; [exact Hpre|].
  split.
  { intros Hnone. unfold disk_descriptor, utils.js_get in Hdd.
    change (Str.split "." "runtimeAttributes.disks")
      with ["runtimeAttributes"; "disks"] in Hdd.
    rewrite Hnone in Hdd. by injection Hdd. }
  split; [intros Hp; by apply disk_size_local_disk|].
  split; [intros Hp; by apply (disk_size_default (read_disk_description v))|].
  split; [reflexivity|].
  repeat split; try (by rewrite H); rewrite H in Hsize.
  - change (workflows.disk_size _) with (@inr exn float (Finite 50)) in Hsize.
    by injection Hsize as <-.
  - change (workflows.disk_size _) with (@inr exn float (Finite 50)) in Hsize.
    by injection Hsize as <-.
  - change (workflows.disk_size _) with (@inr exn float (Finite 1)) in Hsize.
    by injection Hsize as <-.
Qed.

Lemma disk_size_and_price_witness :
  exists dd cp p,
    disk_descriptor sample.done_attempt = inr (JStr dd)
    /\ utils.js_get "runtimeAttributes.cpuPlatform" sample.done_attempt (Some (JStr ""))
       = inr cp
    /\ preemptible_flag sample.done_attempt = inr p
    /\ (utils.lookup_path ["runtimeAttributes"; "disks"] (JObj sample.done_attempt) = None
        -> dd = "")
    /\ (Str.startswith dd "local-disk" = true ->
        exists a b z, Str.words dd = [a; b; z] /\ Num.float_of_str b = inr (Finite 50))
    /\ (Str.startswith dd "local-disk" = false -> Finite 50 = Finite 1)
    /\ Finite 12
       = Float.add
           (workflows.instance_cost sample.prices cp 4 (Finite 15) (Finite (7201 # 2))
              (py_bool p))
           (if Str.endswith dd "LOCAL"
            then LocalSSDDisk_estimate sample.prices (Finite 50) (Finite (7201 # 2))
            else PersistentDisk_estimate sample.prices (Finite 50) (Finite (7201 # 2)))
    /\ (dd = "local-disk 50 SSD" ->
        Finite 50 = Finite 50 /\ Str.endswith dd "LOCAL" = false)
    /\ (dd = "local-disk 50 LOCAL" ->
        Finite 50 = Finite 50 /\ Str.endswith dd "LOCAL" = true)
    /\ (dd = "" -> Finite 50 = Finite 1 /\ Str.endswith dd "LOCAL" = false).
Proof.
  exact (disk_size_and_price sample.prices "wf" "Align.sort" sample.done_attempt
           (record_of sample.prices "sort" sample.done_reads) eq_refl eq_refl).
Defined.

Example disk_descriptor_records :
  let record a :=
    (fun r => (disk r, cost r))
      <$> yielded (workflows.estimate_attempt sample.prices "wf" "Align.sort" a) in
  record (sample.attempt (JStr "0") "local-disk 50 SSD" [("backendStatus", JStr "Done")])
  = [(Finite 50, Finite 11)] /\
  record (sample.attempt (JStr "0") "local-disk 50 LOCAL" [("backendStatus", JStr "Done")])
  = [(Finite 50, Finite 12)] /\
  record (sample.attempt (JStr "0") "" [("backendStatus", JStr "Done")])
  = [(Finite 1, Finite 11)] /\
  record sample.no_disk_attempt = [(Finite 1, Finite 11)].
Proof. repeat split; reflexivity. Qed.

Example disk_descriptor_samples :
  workflows.disk_size "local-disk 50 SSD" = inr (Finite 50) /\
  workflows.disk_size "local-disk 50 LOCAL" = inr (Finite 50) /\
  workflows.disk_size "" = inr (Finite 1) /\
  workflows.disk_size "local-disk 50" = inl ValueError /\
  (forall c x t,
     workflows.disk_cost c "local-disk 50 SSD" x t = PersistentDisk_estimate c x t /\
     workflows.disk_cost c "local-disk 50 LOCAL" x t = LocalSSDDisk_estimate c x t /\
     workflows.disk_cost c "" x t = PersistentDisk_estimate c x t).
Proof. repeat split; reflexivity. Qed.

(** ** The cache of [lru_cache] *)

Section lru_facts.
Context {K V : Type} `{EqDecision K}.
Implicit Types (c pre suf : list (K * V)) (k : K) (v : V) (D : list K).

Lemma find_None k c : functools.find k c = None <-> k ∉ c.*1.
Proof.
  induction c as [|[k' v'] c IH]; simpl.
  - split; [intros _; apply not_elem_of_nil | done].
  - rewrite not_elem_of_cons. destruct (decide (k = k')) as [->|Hne].
    + split; [discriminate | by intros [? _]].
    + rewrite IH. tauto.
Qed.

Lemma find_middle k v pre suf :
  k ∉ pre.*1 -> functools.find k (pre ++ (k, v) :: suf) = Some v.
Proof.
  induction pre as [|[k' v'] pre IH]; simpl; intros Hk.
  - by rewrite decide_True.
  - apply not_elem_of_cons in Hk as [Hne Hk]. by rewrite decide_False, IH.
Qed.

Lemma remove_app_l k pre suf :
  k ∈ pre.*1 -> functools.remove k (pre ++ suf) = functools.remove k pre ++ suf.
Proof.
  induction pre as [|[k' v'] pre IH]; simpl; intros Hk.
  - by apply elem_of_nil in Hk.
  - destruct (decide (k = k')) as [->|Hne]; [done|].
    apply elem_of_cons in Hk as [?|Hk]; [done|]. by rewrite IH.
Qed.

Lemma remove_app_r k pre suf :
  k ∉ pre.*1 -> functools.remove k (pre ++ suf) = pre ++ functools.remove k suf.
Proof.
  induction pre as [|[k' v'] pre IH]; simpl; intros Hk; [done|].
  apply not_elem_of_cons in Hk as [Hne Hk]. by rewrite decide_False, IH.
Qed.

Lemma remove_keys k c x : x ∈ (functools.remove k c).*1 -> x ∈ c.*1.
Proof.
  induction c as [|[k' v'] c IH]; simpl; [done|].
  destruct (decide (k = k')) as [->|Hne]; simpl.
  - by right.
  - intros [->|Hx]%elem_of_cons; [by left | right; by apply IH].
Qed.

Lemma remove_NoDup k c :
  NoDup c.*1 -> NoDup (functools.remove k c).*1 /\ k ∉ (functools.remove k c).*1.
Proof.
  induction c as [|[k' v'] c IH]; simpl; intros Hnd.
  - split; [constructor | apply not_elem_of_nil].
  - apply NoDup_cons in Hnd as [Hk' Hnd].
    destruct (decide (k = k')) as [->|Hne]; simpl; [done|].
    destruct (IH Hnd) as [IH1 IH2]. split.
    + apply NoDup_cons. split; [|done]. intros Hin. by apply Hk', (remove_keys k).
    + by apply not_elem_of_cons.
Qed.

Lemma kept_find k v D c : functools.kept k v D c -> functools.find k c = Some v.
Proof.
  intros (Hnd & pre & suf & -> & _). apply find_middle.
  rewrite fmap_app in Hnd. apply NoDup_app in Hnd as (_ & Hnd & _).
  intros Hin. apply (Hnd k Hin). by left.
Qed.

Lemma kept_mono k v D D' c :
  (forall x, x ∈ D -> x ∈ D') -> functools.kept k v D c -> functools.kept k v D' c.
Proof.
  intros HD (Hnd & pre & suf & -> & Hpre). split; [done|].
  exists pre, suf. split; [done|]. auto.
Qed.

(** A hit on another key leaves the entry where it is or moves it one
    place back. *)
Lemma kept_touch k v D c k' v' :
  functools.kept k v D c -> k' ∈ D -> k' <> k ->
  functools.kept k v D (functools.touch k' v' c).
Proof.
  intros (Hnd & pre & suf & -> & Hpre) Hk' Hne.
  destruct (remove_NoDup k' _ Hnd) as [Hnd1 Hnd2].
  split; [unfold functools.touch; simpl; by apply NoDup_cons|].
  unfold functools.touch. destruct (decide (k' ∈ pre.*1)) as [Hin|Hin].
  - rewrite remove_app_l by done.
    exists ((k', v') :: functools.remove k' pre), suf. split; [done|].
    simpl. intros x [->|Hx]%elem_of_cons; [done|]. by apply Hpre, (remove_keys k').
  - rewrite remove_app_r by done. simpl. rewrite decide_False by done.
    exists ((k', v') :: pre), (functools.remove k' suf). split; [done|].
    simpl. intros x [->|Hx]%elem_of_cons; [done|]. by apply Hpre.
Qed.

Lemma kept_touch_self k v D c :
  NoDup c.*1 -> functools.kept k v D (functools.touch k v c).
Proof.
  intros Hnd. destruct (remove_NoDup k _ Hnd) as [Hnd1 Hnd2].
  split; [unfold functools.touch; simpl; by apply NoDup_cons|].
  exists [], (functools.remove k c). split; [done|].
  intros x Hx. by apply elem_of_nil in Hx.
Qed.

Lemma store_NoDup k v c :
  NoDup c.*1 -> k ∉ c.*1 -> NoDup (functools.store k v c).*1.
Proof.
  intros Hnd Hk. unfold functools.store. rewrite fmap_take.
  eapply sublist_NoDup; [|apply sublist_take]. simpl. by apply NoDup_cons.
Qed.

(** A miss on another key keeps the entry as long as fewer than [maxsize]
    keys can be in front of it. *)
Lemma kept_store k v D c k' v' :
  functools.kept k v D c -> k' ∈ D -> k' ∉ c.*1 ->
  length D < functools.maxsize ->
  functools.kept k v D (functools.store k' v' c).
Proof.
  intros (Hnd & pre & suf & -> & Hpre) Hk' Hfresh Hlen.
  split; [by apply store_NoDup|].
  assert (length ((k', v') :: pre) <= length D) as Hle.
  { rewrite <- (length_fmap fst). apply submseteq_length, NoDup_submseteq.
    - simpl. apply NoDup_cons. split.
      + intros Hin. apply Hfresh. rewrite fmap_app. apply elem_of_app. by left.
      + rewrite fmap_app in Hnd. by apply NoDup_app in Hnd as (? & _).
    - simpl. intros x [->|Hx]%elem_of_cons; [done|]. by apply Hpre. }
  assert (exists m, functools.maxsize - length ((k', v') :: pre) = S m) as [m Hm]
    by (exists (functools.maxsize - length ((k', v') :: pre) - 1); lia).
  exists ((k', v') :: pre), (take m suf). split.
  - unfold functools.store.
    change ((k', v') :: pre ++ (k, v) :: suf) with (((k', v') :: pre) ++ (k, v) :: suf).
    rewrite take_app, take_ge by lia. by rewrite Hm.
  - simpl. intros x [->|Hx]%elem_of_cons; [done|]. by apply Hpre.
Qed.

Lemma kept_store_self k v D c :
  NoDup c.*1 -> k ∉ c.*1 -> functools.kept k v D (functools.store k v c).
Proof.
  intros Hnd Hk. split; [by apply store_NoDup|].
  exists [], (take (functools.maxsize - 1) c). split; [done|].
  intros x Hx. by apply elem_of_nil in Hx.
Qed.

End lru_facts.

(** ** Memoized functions *)

Section memoized.
Context {S K V : Type} `{EqDecision K}.
Variables (get : S -> list (K * V)) (set : list (K * V) -> S -> S)
          (body : K -> S -> result V * S).
Hypothesis get_set : forall c s, get (set c s) = c.
Hypothesis body_frame : forall k s, get (body k s).2 = get s.

Let cached := functools.lru_cache get set body.

(** The cache after a call is one of three. *)
Lemma lru_cache_cases k s :
  (exists v, functools.find k (get s) = Some v
             /\ cached k s = (inr v, set (functools.touch k v (get s)) s))
  \/ (exists v s', functools.find k (get s) = None /\ body k s = (inr v, s')
                   /\ cached k s = (inr v, set (functools.store k v (get s)) s'))
  \/ (exists e s', functools.find k (get s) = None /\ body k s = (inl e, s')
                   /\ cached k s = (inl e, s')).
Proof.
  unfold cached, functools.lru_cache.
  destruct (functools.find k (get s)) as [v|] eqn:Hf; [left; by exists v|].
  right. pose proof (body_frame k s) as Hfr.
  destruct (body k s) as [[e|v] s'] eqn:Hb; simpl in Hfr.
  - right. by exists e, s'.
  - left. exists v, s'. by rewrite Hfr.
Qed.

Lemma lru_cache_NoDup k s :
  NoDup (get s).*1 -> NoDup (get (cached k s).2).*1.
Proof.
  intros Hnd.
  destruct (lru_cache_cases k s)
    as [(v & Hf & ->)|[(v & s' & Hf & Hb & ->)|(e & s' & Hf & Hb & ->)]]; simpl.
  - rewrite get_set. unfold functools.touch. simpl.
    destruct (remove_NoDup k _ Hnd). by apply NoDup_cons.
  - rewrite get_set. apply store_NoDup; [done|]. by apply find_None.
  - pose proof (body_frame k s) as Hfr. rewrite Hb in Hfr. simpl in Hfr. by rewrite Hfr.
Qed.

(** A call that returns leaves its value in the cache, in front. *)
Lemma lru_cache_returns k v s s' D :
  NoDup (get s).*1 -> cached k s = (inr v, s') -> functools.kept k v D (get s').
Proof.
  intros Hnd Hc.
  destruct (lru_cache_cases k s)
    as [(v0 & Hf & E)|[(v0 & s0 & Hf & Hb & E)|(e & s0 & Hf & Hb & E)]];
    rewrite E in Hc; simplify_eq; rewrite get_set.
  - by apply kept_touch_self.
  - apply kept_store_self; [done|]. by apply find_None.
Qed.

(** A call on a key of [D] keeps the entry of [k] in the cache. *)
Lemma lru_cache_keeps k v D k' s :
  functools.kept k v D (get s) -> length D < functools.maxsize ->
  k' = k \/ k' ∈ D ->
  functools.kept k v D (get (cached k' s).2).
Proof.
  intros Hk Hlen Hk'.
  destruct (decide (k' = k)) as [->|Hne].
  { pose proof (kept_find _ _ _ _ Hk) as Hf.
    destruct (lru_cache_cases k s)
      as [(v0 & Hf0 & ->)|[(v0 & s0 & Hf0 & _)|(e & s0 & Hf0 & _)]]; try congruence.
    simpl. rewrite get_set. rewrite Hf in Hf0. injection Hf0 as <-.
    apply kept_touch_self. by destruct Hk. }
  destruct Hk' as [?|Hk']; [done|].
  destruct (lru_cache_cases k' s)
    as [(v0 & Hf & ->)|[(v0 & s0 & Hf & Hb & ->)|(e & s0 & Hf & Hb & ->)]]; simpl.
  - rewrite get_set. by apply kept_touch.
  - rewrite get_set. apply kept_store; [done | done | by apply find_None | done].
  - pose proof (body_frame k' s) as Hfr. rewrite Hb in Hfr. simpl in Hfr. by rewrite Hfr.
Qed.

(** A call on a kept key is a hit: it returns the stored value and only
    reorders the cache. *)
Lemma lru_cache_hit k v D s :
  functools.kept k v D (get s) ->
  cached k s = (inr v, set (functools.touch k v (get s)) s).
Proof.
  intros Hk. unfold cached, functools.lru_cache. by rewrite (kept_find _ _ _ _ Hk).
Qed.

End memoized.

Section fetcher.
Variable fapi : service.

Lemma get_workflow_body_frame key w :
  workflow_cache (workflows.get_workflow_body fapi key w).2 = workflow_cache w.
Proof. by destruct key as [[[? ?] ?] ?]. Qed.

Lemma get_submission_body_frame key w :
  submission_cache (workflows.get_submission_body fapi key w).2 = submission_cache w.
Proof. by destruct key as [[? ?] ?]. Qed.

(** Each function leaves the cache of the other one alone. *)
Lemma get_submission_workflow_cache key w :
  workflow_cache (workflows.get_submission fapi key w).2 = workflow_cache w.
Proof.
  unfold workflows.get_submission, functools.lru_cache.
  destruct (functools.find key (submission_cache w)); [done|].
  destruct key as [[? ?] ?]. simpl.
  match goal with |- context [mbind ?f ?x] => by destruct (mbind f x) end.
Qed.

Lemma get_workflow_submission_cache key w :
  submission_cache (workflows.get_workflow fapi key w).2 = submission_cache w.
Proof.
  unfold workflows.get_workflow, functools.lru_cache.
  destruct (functools.find key (workflow_cache w)); [done|].
  destruct key as [[[? ?] ?] ?]. simpl.
  match goal with |- context [mbind ?f ?x] => by destruct (mbind f x) end.
Qed.

(** The keys of each cache stay distinct. *)
Lemma after_call_NoDup cl w :
  NoDup (workflow_cache w).*1 /\ NoDup (submission_cache w).*1 ->
  NoDup (workflow_cache (workflows.after_call fapi cl w)).*1
  /\ NoDup (submission_cache (workflows.after_call fapi cl w)).*1.
Proof.
  intros [Hw Hs]. destruct cl as [key|key]; simpl.
  - rewrite get_submission_workflow_cache. split; [done|].
    by apply (lru_cache_NoDup submission_cache set_submission_cache);
      [done | apply get_submission_body_frame |].
  - rewrite get_workflow_submission_cache. split; [|done].
    by apply (lru_cache_NoDup workflow_cache set_workflow_cache);
      [done | apply get_workflow_body_frame |].
Qed.

Lemma after_calls_NoDup cls w :
  NoDup (workflow_cache w).*1 /\ NoDup (submission_cache w).*1 ->
  NoDup (workflow_cache (workflows.after_calls fapi cls w)).*1
  /\ NoDup (submission_cache (workflows.after_calls fapi cls w)).*1.
Proof.
  revert w. induction cls as [|cl cls IH]; intros w Hw; [done|].
  simpl. by apply IH, after_call_NoDup.
Qed.

Lemma after_calls_fresh_NoDup cls :
  NoDup (workflow_cache (workflows.after_calls fapi cls fresh)).*1
  /\ NoDup (submission_cache (workflows.after_calls fapi cls fresh)).*1.
Proof. apply after_calls_NoDup. split; constructor. Qed.

Lemma distinct_others_bound {A} `{EqDecision A} (k : A) (l : list A) :
  forall x, x ∈ l -> x = k \/ x ∈ remove_dups (filter (fun y => y <> k) l).
Proof.
  intros x Hx. destruct (decide (x = k)) as [->|Hne]; [by left|right].
  apply elem_of_remove_dups, list_elem_of_filter. by split.
Qed.

(** The entry of a workflow key survives calls on keys of [D]. *)
Lemma after_calls_keeps_workflow key v D cls w :
  functools.kept key v D (workflow_cache w) -> length D < functools.maxsize ->
  (forall x, x ∈ workflow_keys cls -> x = key \/ x ∈ D) ->
  functools.kept key v D (workflow_cache (workflows.after_calls fapi cls w)).
Proof.
  revert w. induction cls as [|cl cls IH]; intros w Hk Hlen Hcls; [done|].
  simpl. apply IH; [|done|].
  - destruct cl as [key'|key']; simpl.
    + by rewrite get_submission_workflow_cache.
    + apply (lru_cache_keeps workflow_cache set_workflow_cache);
        [done | apply get_workflow_body_frame | done | done |].
      apply Hcls. by left.
  - intros x Hx. apply Hcls. destruct cl; simpl; [done | by right].
Qed.

Lemma after_calls_keeps_submission key v D cls w :
  functools.kept key v D (submission_cache w) -> length D < functools.maxsize ->
  (forall x, x ∈ submission_keys cls -> x = key \/ x ∈ D) ->
  functools.kept key v D (submission_cache (workflows.after_calls fapi cls w)).
Proof.
  revert w. induction cls as [|cl cls IH]; intros w Hk Hlen Hcls; [done|].
  simpl. apply IH; [|done|].
  - destruct cl as [key'|key']; simpl.
    + apply (lru_cache_keeps submission_cache set_submission_cache);
        [done | apply get_submission_body_frame | done | done |].
      apply Hcls. by left.
    + by rewrite get_workflow_submission_cache.
  - intros x Hx. apply Hcls. destruct cl; simpl; [by right | done].
Qed.

End fetcher.

(** C5, as stated, fails: [lru_cache()] keeps at most 128 entries.  After
    calls of [get_workflow] with 129 distinct argument tuples, a call with
    the first tuple again sends a second request for it to the service. *)
Lemma lru_cache_evicts :
  let first := GetWorkflowMetadata (Some "namespace") (Some "workspace")
                 "submission" (sample.numbered 0) in
  let w := workflows.after_calls sample.quiet_service (sample.numbered_calls 129) fresh in
  let w' := (workflows.get_workflow sample.quiet_service (sample.numbered_key 0) w).2 in
  length (filter (fun r => r = first) (sent w)) = 1
  /\ length (filter (fun r => r = first) (sent w')) = 2.
Proof. vm_compute. split; reflexivity. Qed.

(** C5, amended.  [get_submission] and [get_workflow] memoize their
    results per argument tuple in a cache of 128 entries that drops the
    least recently used one: in any state the process can reach, once a
    call has returned a value, a later call with the same arguments
    returns that value without a request to the service, provided that the
    calls of the same function in between had fewer than 128 distinct
    other argument tuples. *)
Theorem memoized_until_evicted (fapi : service) (history cls : list workflows.call) :
  let w := workflows.after_calls fapi history fresh in
  (forall key v w1,
     workflows.get_workflow fapi key w = (inr v, w1) ->
     distinct_others key (workflow_keys cls) < 128 ->
     let w2 := workflows.after_calls fapi cls w1 in
     exists w3, workflows.get_workflow fapi key w2 = (inr v, w3) /\ sent w3 = sent w2)
  /\ (forall key v w1,
        workflows.get_submission fapi key w = (inr v, w1) ->
        distinct_others key (submission_keys cls) < 128 ->
        let w2 := workflows.after_calls fapi cls w1 in
        exists w3, workflows.get_submission fapi key w2 = (inr v, w3) /\ sent w3 = sent w2).
Proof.
  intros w. destruct (after_calls_fresh_NoDup fapi history) as [Hw Hs]. split.
  - intros key v w1 Hcall Hlen w2.
    set (D := remove_dups (filter (fun y => y <> key) (workflow_keys cls))).
    assert (functools.kept key v D (workflow_cache w2)) as Hk.
    { apply after_calls_keeps_workflow; [|exact Hlen|apply distinct_others_bound].
      by apply (lru_cache_returns workflow_cache set_workflow_cache
                  (workflows.get_workflow_body fapi)
                  (fun _ _ => eq_refl) (get_workflow_body_frame fapi) key v w w1 D). }
    exists (set_workflow_cache (functools.touch key v (workflow_cache w2)) w2).
    split; [|reflexivity].
    apply (lru_cache_hit workflow_cache set_workflow_cache _ key v D w2 Hk).
  - intros key v w1 Hcall Hlen w2.
    set (D := remove_dups (filter (fun y => y <> key) (submission_keys cls))).
    assert (functools.kept key v D (submission_cache w2)) as Hk.
    { apply after_calls_keeps_submission; [|exact Hlen|apply distinct_others_bound].
      by apply (lru_cache_returns submission_cache set_submission_cache
                  (workflows.get_submission_body fapi)
                  (fun _ _ => eq_refl) (get_submission_body_frame fapi) key v w w1 D). }
    exists (set_submission_cache (functools.touch key v (submission_cache w2)) w2).
    split; [|reflexivity].
    apply (lru_cache_hit submission_cache set_submission_cache _ key v D w2 Hk).
Qed.

Lemma memoized_until_evicted_witness :
  let w1 := (workflows.get_workflow sample.quiet_service (sample.numbered_key 0) fresh).2 in
  let w2 := workflows.after_calls sample.quiet_service (sample.numbered_calls 128) w1 in
  exists w3,
    workflows.get_workflow sample.quiet_service (sample.numbered_key 0) w2
    = (inr {| calls := Some [] |}, w3)
    /\ sent w3 = sent w2.
Proof.
  destruct (memoized_until_evicted sample.quiet_service [] (sample.numbered_calls 128))
    as [H _].
  apply (H (sample.numbered_key 0) {| calls := Some [] |} _ eq_refl).
  vm_compute. lia.
Defined.

(** ** Discovery of sub-workflows *)

Import workflows.

(** The identifiers collected from a list of dictionaries are the string
    values of the key; dictionaries without the key are passed over. *)
Lemma id_set_spec key l X :
  workflows.id_set key l = inr X ->
  forall x, x ∈ X <-> exists d, d ∈ l /\ dict_get key d = Some (JStr x).
Proof.
  revert X. induction l as [|d l IH]; simpl; intros X HX x.
  - injection HX as <-. split.
    + intros Hx. by apply elem_of_empty in Hx.
    + intros (d & Hd & _). by apply elem_of_nil in Hd.
  - destruct (dict_get key d) as [v|] eqn:Hv.
    + apply bind_inr in HX as (i & Hi & HX).
      apply bind_inr in HX as (X' & HX' & HX). injection HX as <-.
      destruct v; try discriminate Hi. injection Hi as ->.
      rewrite elem_of_union, elem_of_singleton, (IH X' HX' x). split.
      * intros [->|(d' & Hd' & Hx)]; [exists d; split; [by left | done]|].
        exists d'. split; [by right | done].
      * intros (d' & [->|Hd']%elem_of_cons & Hx); [left; congruence|].
        right. by exists d'.
    + rewrite (IH X HX x). split.
      * intros (d' & Hd' & Hx). exists d'. split; [by right | done].
      * intros (d' & [->|Hd']%elem_of_cons & Hx); [congruence|]. by exists d'.
Qed.

(** The attempts of a workflow, call by call. *)
Lemma elem_of_attempts (cs : list (string * list dict)) (cm : dict) :
  cm ∈ concat (snd <$> cs) <-> exists name l, (name, l) ∈ cs /\ cm ∈ l.
Proof.
  induction cs as [|[name l] cs IH]; cbn.
  - split; [by intros H%elem_of_nil | by intros (? & ? & H%elem_of_nil & _)].
  - rewrite elem_of_app, IH. split.
    + intros [Hl|(name' & l' & Hin & Hl)].
      * exists name, l. split; [by left | done].
      * exists name', l'. split; [by right | done].
    + intros (name' & l' & [[= -> ->]|Hin]%elem_of_cons & Hl); [by left|].
      right. by exists name', l'.
Qed.

Lemma size_unseen (U seen : gset string) (x : string) :
  x ∈ U -> x ∉ seen -> size (U ∖ seen) = Datatypes.S (size (U ∖ ({[x]} ∪ seen))).
Proof.
  intros HU Hseen.
  assert (U ∖ seen = {[x]} ∪ U ∖ ({[x]} ∪ seen)) as ->.
  { apply set_eq. intros y. rewrite elem_of_union, !elem_of_difference,
      elem_of_union, elem_of_singleton.
    destruct (decide (y = x)) as [->|]; tauto. }
  rewrite size_union, size_singleton; [done|].
  intros y Hy1 Hy2. apply elem_of_singleton in Hy1 as ->.
  apply elem_of_difference in Hy2 as [_ Hy2]. apply Hy2, elem_of_union. left.
  by apply elem_of_singleton.
Qed.

Section discovery.
Variables (fapi : service) (submission_id : string) (workspace namespace : option string).
Variables (w1 : world) (initial : gset string).
Variables (succ : string -> gset string) (md : string -> workflow_metadata).
Variable U : gset string.

Hypothesis service_answers :
  forall x, reachable initial succ x ->
    answers fapi namespace workspace submission_id x (md x)
    /\ workflows.subworkflows (md x) = inr (succ x).
Hypothesis bounded : forall x, reachable initial succ x -> x ∈ U.

Let recurse :=
  workflows.get_metadata_and_subworkflows fapi submission_id workspace namespace.
Let inv := traversal w1 namespace workspace submission_id initial succ md.

(** Expanding a workflow not seen before requests its metadata once,
    records it and returns its sub-workflows. *)
Lemma expand_unseen seen frontier m w x :
  inv seen frontier m w -> x ∈ frontier -> x ∉ seen ->
  exists w',
    recurse x (m, w) = (inr (succ x), (<[x := md x]> m, w'))
    /\ sent w' = sent w ++ [GetWorkflowMetadata namespace workspace submission_id x]
    /\ forall k, k ∈ (workflow_cache w').*1 ->
         k = (submission_id, x, workspace, namespace) \/ k ∈ (workflow_cache w).*1.
Proof.
  intros Hinv Hx Hseen.
  pose proof (traversal_frontier _ _ _ _ _ _ _ _ _ _ _ Hinv x Hx) as Hreach.
  destruct (service_answers x Hreach) as [Hans Hsub].
  assert (functools.find (submission_id, x, workspace, namespace) (workflow_cache w) = None)
    as Hmiss.
  { apply find_None. intros Hin.
    destruct (traversal_cache _ _ _ _ _ _ _ _ _ _ _ Hinv _ Hin) as (y & Hy & Heq).
    by injection Heq as ->. }
  destruct (Hans (length (sent w))) as (resp & Hresp & Hok & Hbody).
  eexists. unfold recurse, workflows.get_metadata_and_subworkflows,
    workflows.get_workflow, functools.lru_cache.
  rewrite Hmiss. unfold workflows.get_workflow_body.
  rewrite Hresp, bind_ok, Hok, bind_ok, Hbody. simpl.
  rewrite Hsub. split; [reflexivity|]. split; [reflexivity|].
  intros k Hk. cbn [workflow_cache set_workflow_cache] in Hk.
  unfold functools.store in Hk. rewrite fmap_take in Hk.
  apply elem_of_take in Hk as (i & Hi & _). apply list_elem_of_lookup_2 in Hi.
  simpl in Hi. by apply elem_of_cons in Hi.
Qed.

(** Each step of the traversal keeps its invariant. *)
Lemma traversal_skip seen x rest m w :
  inv seen (x :: rest) m w -> x ∈ seen -> inv seen rest m w.
Proof.
  intros [H1 H2 H3 H4 H5 H6 H7 H8] Hx. split; try done.
  - intros y Hy. apply H4. by right.
  - intros a b Ha Hb. destruct (H5 a b Ha Hb) as [?|[->|?]%elem_of_cons]; auto.
  - intros a Ha. destruct (H6 a Ha) as [?|[->|?]%elem_of_cons]; auto.
Qed.

Lemma traversal_expand seen x rest m w w' :
  inv seen (x :: rest) m w -> x ∉ seen ->
  sent w' = sent w ++ [GetWorkflowMetadata namespace workspace submission_id x] ->
  (forall k, k ∈ (workflow_cache w').*1 ->
     k = (submission_id, x, workspace, namespace) \/ k ∈ (workflow_cache w).*1) ->
  inv ({[x]} ∪ seen) (rest ++ elements (succ x)) (<[x := md x]> m) w'.
Proof.
  intros [H1 H2 H3 H4 H5 H6 H7 H8] Hx Hsent Hcache.
  assert (reachable initial succ x) as Hreach by (apply H4; by left).
  split.
  - by rewrite dom_insert_L, H1.
  - intros y [->%elem_of_singleton|Hy]%elem_of_union.
    + by rewrite lookup_insert_eq.
    + rewrite lookup_insert_ne by (intros ->; done). by apply H2.
  - intros y [->%elem_of_singleton|Hy]%elem_of_union; auto.
  - intros y [Hy|Hy%elem_of_elements]%elem_of_app.
    + apply H4. by right.
    + by apply (reachable_step _ _ x).
  - intros a b [->%elem_of_singleton|Ha]%elem_of_union Hb.
    + right. apply elem_of_app. right. by apply elem_of_elements.
    + destruct (H5 a b Ha Hb) as [?|[->|?]%elem_of_cons].
      * left. apply elem_of_union. by right.
      * left. apply elem_of_union. left. by apply elem_of_singleton.
      * right. apply elem_of_app. by left.
  - intros a Ha. destruct (H6 a Ha) as [?|[->|?]%elem_of_cons].
    + left. apply elem_of_union. by right.
    + left. apply elem_of_union. left. by apply elem_of_singleton.
    + right. apply elem_of_app. by left.
  - intros k Hk. destruct (Hcache k Hk) as [->|Hk'].
    + exists x. split; [|done]. apply elem_of_union. left. by apply elem_of_singleton.
    + destruct (H7 k Hk') as (y & Hy & ->). exists y. split; [|done].
      apply elem_of_union. by right.
  - destruct H8 as (reqs & Hreqs & Hperm).
    exists (reqs ++ [GetWorkflowMetadata namespace workspace submission_id x]).
    split; [by rewrite Hsent, Hreqs, app_assoc|].
    rewrite elements_union_singleton by done.
    rewrite fmap_cons, <- Hperm. symmetry. apply Permutation_cons_append.
Qed.

(** With enough fuel the traversal ends, with an empty frontier. *)
Lemma traversal_ends fuel : forall seen frontier m w,
  inv seen frontier m w ->
  size (U ∖ seen) * (size U + 1) + length frontier < fuel ->
  exists seen' m' w',
    utils.concurrent_recursion_from fuel recurse seen frontier (m, w)
    = Some (inr tt, (m', w'))
    /\ inv seen' [] m' w'.
Proof.
  induction fuel as [|fuel IH]; intros seen frontier m w Hinv Hfuel; [lia|].
  destruct frontier as [|x rest]; cbn [utils.concurrent_recursion_from].
  { by exists seen, m, w. }
  destruct (decide (x ∈ seen)) as [Hx|Hx].
  - apply IH; [by apply (traversal_skip seen x)|]. simpl in Hfuel. lia.
  - destruct (expand_unseen seen (x :: rest) m w x Hinv) as (w' & E & Hsent & Hcache);
      [by left | done |].
    rewrite E.
    assert (reachable initial succ x) as Hreach
      by (apply (traversal_frontier _ _ _ _ _ _ _ _ _ _ _ Hinv); by left).
    apply IH; [by apply (traversal_expand seen x rest m w w')|].
    rewrite length_app. simpl in Hfuel.
    rewrite (size_unseen U seen x) in Hfuel by auto.
    assert (length (elements (succ x)) <= size U) as Hle.
    { change (length (elements (succ x))) with (size (succ x)).
      apply subseteq_size. intros y Hy. by apply bounded, (reachable_step _ _ x). }
    lia.
Qed.

(** When the frontier is empty the workflows seen are the reachable ones. *)
Lemma traversal_complete seen m w x :
  inv seen [] m w -> (x ∈ seen <-> reachable initial succ x).
Proof.
  intros Hinv. split; [apply (traversal_seen _ _ _ _ _ _ _ _ _ _ _ Hinv)|].
  induction 1 as [x Hx|x y Hx IH Hy].
  - destruct (traversal_initial _ _ _ _ _ _ _ _ _ _ _ Hinv x Hx) as [?|Hnil]; [done|].
    by apply elem_of_nil in Hnil.
  - destruct (traversal_closed _ _ _ _ _ _ _ _ _ _ _ Hinv x y IH Hy) as [?|Hnil]; [done|].
    by apply elem_of_nil in Hnil.
Qed.

End discovery.

(** C9, as stated, fails: the metadata of a workflow is not fetched when
    [get_workflow] has it in its cache.  A second call of
    [get_all_workflows] in the same process returns the same mapping of
    the four workflows A, B, C and D, and no request for the metadata of a
    workflow is made during it: the five requests of the first call are
    all that the service has seen. *)
Lemma second_discovery_fetches_nothing :
  exists m w1 w2,
    get_all_workflows sample.tree_service 30 "s" (Some "ws") (Some "ns") fresh
    = Some (inr m, w1)
    /\ get_all_workflows sample.tree_service 30 "s" (Some "ws") (Some "ns") w1
       = Some (inr m, w2)
    /\ dom m = list_to_set ["A"; "B"; "C"; "D"]
    /\ length (sent w1) = 5
    /\ sent w2 = sent w1.
Proof.
  eexists _, _, _. split; [vm_compute; reflexivity|].
  split; [vm_compute; reflexivity|]. repeat split; vm_compute; reflexivity.
Qed.

(** C9, amended.  Let the submission be fetched and its initial workflow
    identifiers be [ids], in a process whose workflow cache is empty; let
    every workflow reachable from [ids] through sub-workflow references be
    answered by the service with metadata [md x], whose references are
    [succ x], and let the reachable identifiers lie in a finite set [U].
    Then [ids] holds exactly the identifiers of the entries of the
    submission's workflow list that have one; the references [succ x] of a
    reachable workflow are exactly the sub-workflow identifiers that the
    attempts of its calls hold; and with enough fuel [get_all_workflows]
    returns a mapping whose keys are exactly the reachable identifiers,
    each with its metadata, after one request to the service for each of
    them. *)
Theorem get_all_workflows_reachable
    (fapi : service) (submission_id : string) (workspace namespace : option string)
    (w w1 : world) (s : submission) (ids : gset string)
    (succ : string -> gset string) (md : string -> workflow_metadata)
    (U : gset string) :
  get_submission fapi (submission_id, workspace, namespace) w = (inr s, w1) ->
  initial_workflow_ids s = inr ids ->
  workflow_cache w = [] ->
  (forall x, reachable ids succ x ->
     answers fapi namespace workspace submission_id x (md x)
     /\ subworkflows (md x) = inr (succ x)) ->
  (forall x, reachable ids succ x -> x ∈ U) ->
  (exists wfs,
     workflows s = Some wfs
     /\ forall x, x ∈ ids <->
                  exists wf, wf ∈ wfs /\ dict_get "workflowId" wf = Some (JStr x))
  /\ (forall x, reachable ids succ x ->
       exists cs,
         calls (md x) = Some cs
         /\ forall y, y ∈ succ x <->
                      exists name l cm,
                        (name, l) ∈ cs /\ cm ∈ l
                        /\ dict_get "subWorkflowId" cm = Some (JStr y))
  /\ forall fuel,
       size U * (size U + 1) + size ids < fuel ->
       exists m w',
         get_all_workflows fapi fuel submission_id workspace namespace w
         = Some (inr m, w')
         /\ (forall x, x ∈ dom m <-> reachable ids succ x)
         /\ (forall x, reachable ids succ x -> m !! x = Some (md x))
         /\ exists reqs,
              sent w' = sent w1 ++ reqs
              /\ reqs ≡ₚ (GetWorkflowMetadata namespace workspace submission_id
                           <$> elements (dom m)).
Proof.
  intros Hsub Hids Hcache Hans HU. split.
  { unfold initial_workflow_ids in Hids.
    destruct (workflows s) as [wfs|]; [|discriminate Hids].
    exists wfs. split; [done|]. by apply id_set_spec. }
  split.
  { intros x Hx. destruct (Hans x Hx) as [_ Hsucc]. unfold subworkflows in Hsucc.
    destruct (calls (md x)) as [cs|]; [|discriminate Hsucc].
    exists cs. split; [done|]. intros y.
    rewrite (id_set_spec _ _ _ Hsucc y). split.
    - intros (cm & (name & l & Hin & Hcm)%elem_of_attempts & Hy). by exists name, l, cm.
    - intros (name & l & cm & Hin & Hcm & Hy). exists cm. split; [|done].
      apply elem_of_attempts. by exists name, l. }
  intros fuel Hfuel.
  assert (traversal w1 namespace workspace submission_id ids succ md
            ∅ (elements ids) ∅ w1) as Hinv.
  { split.
    - apply dom_empty_L.
    - intros x Hx. by apply elem_of_empty in Hx.
    - intros x Hx. by apply elem_of_empty in Hx.
    - intros x Hx. by apply reachable_initial, elem_of_elements.
    - intros x y Hx. by apply elem_of_empty in Hx.
    - intros x Hx. right. by apply elem_of_elements.
    - assert (workflow_cache w1 = []) as ->.
      { rewrite <- Hcache.
        pose proof (get_submission_workflow_cache fapi
                      (submission_id, workspace, namespace) w) as Hfr.
        by rewrite Hsub in Hfr. }
      intros k Hk. by apply elem_of_nil in Hk.
    - exists []. split; [by rewrite app_nil_r|]. by rewrite elements_empty. }
  destruct (traversal_ends fapi submission_id workspace namespace w1 ids succ md U
              Hans HU fuel ∅ (elements ids) ∅ w1 Hinv)
    as (seen & m & w' & Hrun & Hend).
  { rewrite difference_empty_L. exact Hfuel. }
  exists m, w'. split.
  { unfold get_all_workflows, utils.concurrent_recursion. by rewrite Hsub, Hids, Hrun. }
  pose proof (traversal_dom _ _ _ _ _ _ _ _ _ _ _ Hend) as Hdom.
  split; [|split].
  - intros x. rewrite Hdom.
    apply (traversal_complete submission_id workspace namespace w1 ids succ md seen m w').
    exact Hend.
  - intros x Hx. apply (traversal_metadata _ _ _ _ _ _ _ _ _ _ _ Hend).
    by apply (traversal_complete submission_id workspace namespace w1 ids succ md seen m w').
  - rewrite Hdom. apply (traversal_sent _ _ _ _ _ _ _ _ _ _ _ Hend).
Qed.

Lemma tree_reachable x :
  reachable sample.tree_ids sample.tree_succ x -> x ∈ sample.tree_universe.
Proof.
  unfold sample.tree_universe. rewrite elem_of_list_to_set.
  induction 1 as [x Hx|x y Hx IH Hy].
  - unfold sample.tree_ids in Hx.
    apply elem_of_union in Hx as [->%elem_of_singleton|Hx]; [by left|].
    apply elem_of_union in Hx as [->%elem_of_singleton|Hx]; [right; by left|].
    by apply elem_of_empty in Hx.
  - repeat (apply elem_of_cons in IH as [->|IH]);
      try (by apply elem_of_nil in IH);
      unfold sample.tree_succ in Hy; cbn [String.eqb Ascii.eqb Bool.eqb] in Hy;
      try (by apply elem_of_empty in Hy);
      apply elem_of_singleton in Hy as ->.
    + do 2 right. by left.
    + do 3 right. by left.
Qed.

Lemma get_all_workflows_reachable_witness :
  exists m w',
    get_all_workflows sample.tree_service 30 "s" (Some "ws") (Some "ns") fresh
    = Some (inr m, w')
    /\ (forall x, x ∈ dom m <-> reachable sample.tree_ids sample.tree_succ x)
    /\ (forall x, reachable sample.tree_ids sample.tree_succ x ->
                  m !! x = Some (sample.tree_metadata x))
    /\ exists reqs,
         sent w' = [GetSubmission (Some "ns") (Some "ws") "s"] ++ reqs
         /\ reqs ≡ₚ (GetWorkflowMetadata (Some "ns") (Some "ws") "s" <$> elements (dom m)).
Proof.
  assert (forall x, reachable sample.tree_ids sample.tree_succ x ->
            answers sample.tree_service (Some "ns") (Some "ws") "s" x (sample.tree_metadata x)
            /\ subworkflows (sample.tree_metadata x) = inr (sample.tree_succ x)) as Hans.
  { intros x Hx%tree_reachable. unfold sample.tree_universe in Hx.
    apply elem_of_list_to_set in Hx.
    repeat (apply elem_of_cons in Hx as [->|Hx];
            [split; [intros n; eexists; repeat split|]; vm_compute; reflexivity|]).
    by apply elem_of_nil in Hx. }
  destruct (get_all_workflows_reachable sample.tree_service "s" (Some "ws") (Some "ns")
              fresh _ sample.tree_submission sample.tree_ids sample.tree_succ
              sample.tree_metadata sample.tree_universe
              eq_refl eq_refl eq_refl Hans tree_reachable) as (_ & _ & H).
  apply (H 30). vm_compute. lia.
Defined.

Example get_all_workflows_tree :
  exists m w',
    get_all_workflows sample.tree_service 30 "s" (Some "ws") (Some "ns") fresh
    = Some (inr m, w')
    /\ dom m = list_to_set ["A"; "B"; "C"; "D"]
    /\ sent w' = [GetSubmission (Some "ns") (Some "ws") "s";
                  GetWorkflowMetadata (Some "ns") (Some "ws") "s" "A";
                  GetWorkflowMetadata (Some "ns") (Some "ws") "s" "B";
                  GetWorkflowMetadata (Some "ns") (Some "ws") "s" "C";
                  GetWorkflowMetadata (Some "ns") (Some "ws") "s" "D"].
Proof. eexists _, _. split; [vm_compute; reflexivity|]. split; vm_compute; reflexivity. Qed.

(** * Further properties *)

(** ** The machine-type parser *)

(** X1.  The parser returns a pair or raises [TNUCostException]: the
    [ValueError] of [int] and [float] never leaves it, whatever the
    string. *)
Theorem parse_machine_type_result (s : string) :
  (exists n x, _parse_machine_type s = inr (n, x))
  \/ exists msg, _parse_machine_type s = inl (TNUCostException msg).
Proof.
  destruct (_parse_machine_type s) as [e|[n x]] eqn:E; [right|left; by exists n, x].
  destruct (parse_machine_type_fails s) as [msg Hmsg]; [intros n x; congruence|].
  exists msg. congruence.
Qed.

(** X2.  A leading [n2d-] is ignored: with and without it a machine type
    gives the same pair, or the same exception with the same message. *)
Theorem parse_machine_type_n2d_prefix (s : string) :
  _parse_machine_type ("n2d-" +:+ s) = _parse_machine_type s.
Proof. unfold _parse_machine_type. by rewrite replace_n2d_prefix. Qed.

(** X3.  For every [c] without a minus sign that [int] accepts and every
    [m] that [float] accepts, [custom-<c>-<m>] and [n2d-custom-<c>-<m>] are
    parsed to [(int(c), float(m) / 1024)]; [m] may hold dashes of its own,
    as in a negative number or an exponent. *)
Theorem parse_machine_type_well_formed (cpus memory : string) (n : Z) (x : float) :
  Str.no_char "-" cpus = true ->
  Num.int_of_str cpus = inr n ->
  Num.float_of_str memory = inr x ->
  _parse_machine_type ("custom-" +:+ cpus +:+ "-" +:+ memory)
    = inr (n, Float.div_pos x 1024)
  /\ _parse_machine_type ("n2d-custom-" +:+ cpus +:+ "-" +:+ memory)
    = inr (n, Float.div_pos x 1024).
Proof. apply parse_machine_type_custom. Qed.

Lemma parse_machine_type_well_formed_witness :
  _parse_machine_type "custom- 1_6 -2.048e-3" = inr (16%Z, Finite (1 # 500000))
  /\ _parse_machine_type "n2d-custom- 1_6 -2.048e-3" = inr (16%Z, Finite (1 # 500000)).
Proof.
  exact (parse_machine_type_well_formed " 1_6 " "2.048e-3" 16 (Finite (32 # 15625))
           eq_refl eq_refl eq_refl).
Defined.

(** *** The parts of a split *)

(** Every part of a split but the last is free of the separator. *)
Lemma splitn_first_part sep n s p q rest :
  Str.splitn sep n s = p :: q :: rest ->
  Str.no_char sep p = true
  /\ exists n' s', Str.splitn sep n' s' = q :: rest /\ S n' = n.
Proof.
  revert n p. induction s as [|ch s IH]; intros n p; [discriminate|].
  cbn [Str.splitn]. destruct n as [|k]; [discriminate|].
  destruct (Ascii.eqb ch sep) eqn:Ech.
  - intros [= <- Hs]. split; [done|]. by exists k, s.
  - destruct (Str.splitn sep (S k) s) as [|p' l'] eqn:Es; [discriminate|].
    cbn [Str.cons_head]. intros [= <- ->].
    destruct (IH (S k) p' Es) as (Hp' & n' & s' & Hs' & Hn').
    split; [|by exists n', s'].
    unfold Str.no_char in *. cbn [Str.all_chars]. by rewrite Ech, Hp'.
Qed.

Lemma all_chars_lstrip_fwd P s :
  Str.all_chars P s = true -> Str.all_chars P (Str.lstrip s) = true.
Proof.
  induction s as [|ch s IH]; [done|]. cbn [Str.lstrip].
  destruct (Str.is_c_space ch); [|done].
  cbn [Str.all_chars]. intros [_ H]%andb_true_iff. by apply IH.
Qed.

Lemma all_chars_strip_fwd P s :
  Str.all_chars P s = true -> Str.all_chars P (Str.strip s) = true.
Proof.
  intros H. unfold Str.strip. rewrite all_chars_rev.
  apply all_chars_lstrip_fwd. rewrite all_chars_rev. by apply all_chars_lstrip_fwd.
Qed.

Lemma digit_val_nonneg ch : Str.is_digit ch = true -> (0 <= Str.digit_val ch)%Z.
Proof.
  unfold Str.is_digit, Str.digit_val. intros [H _]%andb_true_iff.
  apply Nat.leb_le in H. lia.
Qed.

Lemma digit_run_nonneg prev acc k s v k' :
  (0 <= acc)%Z -> Num.digit_run prev acc k s = Some (v, k') -> (0 <= v)%Z.
Proof.
  revert prev acc k. induction s as [|ch s IH]; intros prev acc k Hacc; cbn [Num.digit_run].
  - destruct prev; [|discriminate]. by intros [= <- _].
  - destruct (Str.is_digit ch) eqn:Ed.
    + apply IH. pose proof (digit_val_nonneg ch Ed). lia.
    + destruct (Ascii.eqb ch "_" && prev); [|discriminate]. by apply IH.
Qed.

(** [int] of a string without a minus sign is not negative. *)
Lemma int_of_str_nonneg s n :
  Str.no_char "-" s = true -> Num.int_of_str s = inr n -> (0 <= n)%Z.
Proof.
  intros Hs. unfold Num.int_of_str.
  pose proof (all_chars_strip_fwd _ _ Hs) as Hstrip.
  assert (exists b, Num.split_sign (Str.strip s) = (false, b)) as [b ->].
  { destruct (Str.strip s) as [|ch body]; [by exists ""|].
    cbn [Str.all_chars] in Hstrip. apply andb_true_iff in Hstrip as [Hch _].
    apply negb_true_iff in Hch.
    destruct ch as [[] [] [] [] [] [] [] []]; try discriminate Hch; cbn; eauto. }
  unfold Num.digits.
  destruct (Num.digit_run false 0 0 b) as [[v k]|] eqn:Er; [|discriminate].
  intros [= <-]. by apply (digit_run_nonneg false 0%Z 0 b v k).
Qed.

Lemma parse_cpus_nonneg (s : string) (n : Z) (x : float) :
  _parse_machine_type s = inr (n, x) -> (0 <= n)%Z.
Proof.
  intros (p1 & p2 & y & Hsplit & Hn & _)%parse_machine_type_accepts.
  apply splitn_first_part in Hsplit as (_ & n' & s' & Hsplit & _).
  apply splitn_first_part in Hsplit as (Hp1 & _).
  by apply (int_of_str_nonneg p1).
Qed.

(** X4.  The CPU count that the parser returns is never negative: the part
    it is read from lies between two dashes and holds none, so that no
    sign can precede its digits. *)
Theorem parse_machine_type_cpus_nonneg (s : string) (n : Z) (x : float) :
  _parse_machine_type s = inr (n, x) -> (0 <= n)%Z.
Proof. apply parse_cpus_nonneg. Qed.

Lemma parse_machine_type_cpus_nonneg_witness :
  _parse_machine_type "n2d-custom-8-32768" = inr (8%Z, Finite 32) /\ (0 <= 8)%Z.
Proof.
  split; [reflexivity|].
  exact (parse_machine_type_cpus_nonneg "n2d-custom-8-32768" 8 (Finite 32) eq_refl).
Defined.

Example parse_machine_type_negative :
  cost_exception (_parse_machine_type "custom--4-1024") /\
  _parse_machine_type "custom-4--1024" = inr (4%Z, Finite (-1)) /\
  _parse_machine_type "custom-4-nan" = inr (4%Z, NaN).
Proof. repeat split; vm_compute; eauto. Qed.

(** [int] and [float] skip tab, LF, VT, FF, CR and space around a numeral,
    but not the separators FS to US, which [split()] treats as
    whitespace. *)
Example numeral_whitespace :
  let tab := ascii_of_nat 9 in
  let fs := ascii_of_nat 28 in
  Num.int_of_str (String tab "4 ") = inr 4%Z
  /\ Num.int_of_str (String fs "4") = inl ValueError
  /\ Num.float_of_str (String fs "4") = inl ValueError
  /\ Str.words (String "a" (String fs "b")) = ["a"; "b"].
Proof. repeat split; reflexivity. Qed.

(** ** The cost estimator *)

Lemma run_for_filter {A} (body : A -> run) (P : A -> Prop) `{forall x, Decision (P x)}
    (l : list A) :
  (forall x, ~ P x -> body x = run_done) ->
  run_for body (filter P l) = run_for body l.
Proof.
  intros Hskip. induction l as [|x l IH]; [done|].
  rewrite filter_cons. destruct (decide (P x)) as [Hx|Hx]; simpl.
  - by rewrite IH.
  - by rewrite (Hskip x Hx), run_seq_done_l.
Qed.

(** X5.  Sub-workflow references are invisible to the estimator: an
    attempt with a [subWorkflowId] key contributes nothing and raises
    nothing, whatever its call name and its other fields, and the run over
    a workflow is the run over the same workflow without such attempts. *)
Theorem subworkflow_references_skipped (c : costs) (wid : string)
    (cs : list (string * list dict)) :
  estimate_workflow_cost c wid {| calls := Some cs |}
  = estimate_workflow_cost c wid {| calls := Some (without_subworkflows cs) |}.
Proof.
  unfold estimate_workflow_cost, without_subworkflows. cbn [calls].
  induction cs as [|[name l] cs IH]; [done|].
  rewrite fmap_cons. cbn [run_for]. rewrite <- IH. f_equal.
  unfold task_attempts. cbn [fst snd]. symmetry. apply run_for_filter.
  intros cm Hcm. apply estimate_attempt_subworkflow.
  by destruct (has_key "subWorkflowId" cm).
Qed.

Example subworkflow_reference_under_any_name :
  estimate_workflow_cost sample.prices "wf"
    {| calls := Some [("hello", [[("subWorkflowId", JStr "C"); ("start", JNull)]]);
                      ("Align.sort", [sample.cached_attempt])] |}
  = run_emit (Yield (cached_record "sort")).
Proof. reflexivity. Qed.

Lemma run_for_raised {A} (body : A -> run) (l : list A) (e : exn) :
  raised (run_for body l) = Some e -> exists x, x ∈ l /\ raised (body x) = Some e.
Proof.
  induction l as [|x l IH]; [discriminate|]. cbn [run_for]. unfold run_seq.
  destruct (raised (body x)) as [e'|] eqn:Ex.
  - rewrite Ex. intros [= ->]. exists x. split; [by left | done].
  - cbn [raised]. intros (y & Hy & He)%IH. exists y. split; [by right | done].
Qed.

Lemma run_for_events {A} (body : A -> run) (l : list A) (ev : event) :
  ev ∈ events (run_for body l) -> exists x, x ∈ l /\ ev ∈ events (body x).
Proof.
  induction l as [|x l IH]; [by intros H%elem_of_nil|]. cbn [run_for]. unfold run_seq.
  destruct (raised (body x)) as [e'|] eqn:Ex.
  - intros Hev. exists x. split; [by left | done].
  - cbn [events]. intros [Hev|Hev]%elem_of_app.
    + exists x. split; [by left | done].
    + destruct (IH Hev) as (y & Hy & He). exists y. split; [by right | done].
Qed.

Lemma estimate_attempt_raised c wid name cm e :
  raised (estimate_attempt c wid name cm) = Some e ->
  has_key "subWorkflowId" cm = false
  /\ attempt_record c name cm = inl e /\ caught e = None.
Proof.
  unfold estimate_attempt. destruct (has_key "subWorkflowId" cm); [discriminate|].
  destruct (attempt_record c name cm) as [e'|r]; [|discriminate].
  by destruct e'; intros [= <-].
Qed.

(** X6.  When the run over a workflow ends with an exception, either the
    metadata has no [calls] key, and the exception is the [KeyError] for
    it, raised before anything is produced, or the exception was raised
    for one attempt of the workflow and is none of the two kinds that the
    [except] clause catches: no [KeyError] of a missing attempt field and
    no [TNUCostException] ever ends the run. *)
Theorem run_exception_origin (c : costs) (wid : string) (wm : workflow_metadata)
    (e : exn) :
  raised (estimate_workflow_cost c wid wm) = Some e ->
  (calls wm = None /\ e = KeyError "calls"
   /\ events (estimate_workflow_cost c wid wm) = [])
  \/ exists cs name l cm,
       calls wm = Some cs /\ (name, l) ∈ cs /\ cm ∈ l
       /\ has_key "subWorkflowId" cm = false
       /\ attempt_record c name cm = inl e /\ caught e = None.
Proof.
  unfold estimate_workflow_cost. destruct (calls wm) as [cs|]; [|intros [= <-]; by left].
  intros ([name l] & Hin & He)%run_for_raised.
  apply run_for_raised in He as (cm & Hcm & He).
  apply estimate_attempt_raised in He as (Hsub & He & Hc).
  right. by exists cs, name, l, cm.
Qed.

Lemma run_exception_origin_witness :
  (calls {| calls := Some [("Align.sort", [sample.whole_second_attempt])] |} = None
   /\ ValueError = KeyError "calls"
   /\ events (estimate_workflow_cost sample.prices "wf"
                {| calls := Some [("Align.sort", [sample.whole_second_attempt])] |}) = [])
  \/ exists cs name l cm,
       calls {| calls := Some [("Align.sort", [sample.whole_second_attempt])] |} = Some cs
       /\ (name, l) ∈ cs /\ cm ∈ l
       /\ has_key "subWorkflowId" cm = false
       /\ attempt_record sample.prices name cm = inl ValueError
       /\ caught ValueError = None.
Proof.
  exact (run_exception_origin sample.prices "wf"
           {| calls := Some [("Align.sort", [sample.whole_second_attempt])] |}
           ValueError eq_refl).
Defined.

Lemma events_split (a : run) :
  length (yielded a) + length (warnings a) = length (events a).
Proof.
  unfold yielded, warnings. induction (events a) as [|[r|m] l IH]; cbn; lia.
Qed.

Lemma estimate_attempt_cases c wid name cm :
  (has_key "subWorkflowId" cm = true /\ estimate_attempt c wid name cm = run_done)
  \/ (has_key "subWorkflowId" cm = false
      /\ ((exists ev, estimate_attempt c wid name cm = run_emit ev)
          \/ exists e, estimate_attempt c wid name cm = run_raise e)).
Proof.
  unfold estimate_attempt. destruct (has_key "subWorkflowId" cm); [by left|].
  right. split; [done|].
  destruct (attempt_record c name cm) as [[]|r]; eauto.
Qed.

Lemma call_accounting c wid name (l : list dict) :
  let a := run_for (estimate_attempt c wid name) l in
  (raised a = None -> length (events a) = length (task_attempts l))
  /\ (is_Some (raised a) -> length (events a) < length (task_attempts l)).
Proof.
  induction l as [|cm l [IH1 IH2]]; cbn zeta.
  { split; [done | by intros [? [=]]]. }
  cbn [run_for]. unfold task_attempts. rewrite filter_cons.
  destruct (estimate_attempt_cases c wid name cm) as [[Hs ->]|[Hs [[ev ->]|[e ->]]]];
    rewrite Hs.
  - rewrite run_seq_done_l. destruct (decide (true = false)); [done|]. by split.
  - destruct (decide (false = false)); [|done]. cbn. split.
    + intros H. by rewrite IH1.
    + intros H. apply IH2 in H. unfold task_attempts in H. lia.
  - destruct (decide (false = false)); [|done]. cbn. split; [done | lia].
Qed.

(** X7.  Every attempt of a workflow that is not a sub-workflow reference
    accounts for exactly one record or one warning when the run ends
    normally; when it ends with an exception, strictly fewer records and
    warnings were produced than there are such attempts. *)
Theorem records_and_warnings_count (c : costs) (wid : string)
    (cs : list (string * list dict)) :
  let a := estimate_workflow_cost c wid {| calls := Some cs |} in
  (raised a = None ->
   length (yielded a) + length (warnings a) = count_task_attempts cs)
  /\ (is_Some (raised a) ->
      length (yielded a) + length (warnings a) < count_task_attempts cs).
Proof.
  cbn zeta. rewrite events_split. unfold estimate_workflow_cost, count_task_attempts.
  cbn [calls]. induction cs as [|[name l] cs [IH1 IH2]].
  { split; [done | by intros [? [=]]]. }
  cbn [run_for mbind list_bind]. change (mbind ?f cs) with (cs ≫= f) in *.
  rewrite length_app. cbn [snd].
  destruct (call_accounting c wid name l) as [H1 H2]. unfold run_seq.
  destruct (raised (run_for (estimate_attempt c wid name) l)) as [e|] eqn:Er.
  - rewrite Er. split; [done|]. intros _. specialize (H2 (mk_is_Some _ _ eq_refl)). lia.
  - cbn [events raised]. rewrite length_app, (H1 eq_refl). split.
    + intros H. by rewrite IH1.
    + intros H. apply IH2 in H. lia.
Qed.

Lemma records_and_warnings_count_witness :
  length (yielded (estimate_workflow_cost sample.prices "wf"
                     {| calls := Some sample.mixed_calls |}))
  + length (warnings (estimate_workflow_cost sample.prices "wf"
                        {| calls := Some sample.mixed_calls |}))
  = count_task_attempts sample.mixed_calls.
Proof.
  exact (proj1 (records_and_warnings_count sample.prices "wf" sample.mixed_calls) eq_refl).
Defined.

Lemma attempt_record_task c name cm r :
  attempt_record c name cm = inr r -> task_of name = Some (task_name r).
Proof.
  intros H. destruct (call_cached r) eqn:Hc.
  - unfold attempt_record in H. rewrite task_index in H.
    destruct (task_of name) as [task|]; [|discriminate H]. rewrite bind_ok in H.
    apply bind_inr in H as (hv & _ & H). apply bind_inr in H as (n & _ & H).
    destruct (py_bool n).
    + by injection H as <-.
    + apply bind_inr in H as (? & _ & H). apply bind_inr in H as (? & _ & H).
      apply bind_inr in H as ([] & _ & H).
      do 13 (apply bind_inr in H as (? & _ & H)).
      by injection H as <-.
  - destruct (attempt_record_not_cached_inv c name cm r H Hc) as (task & v & Ht & _ & _ & ->).
    done.
Qed.

Lemma attempt_record_cached_inv c name cm r :
  attempt_record c name cm = inr r -> call_cached r = true ->
  r = cached_record (task_name r).
Proof.
  intros H Hc. unfold attempt_record in H. rewrite task_index in H.
  destruct (task_of name) as [task|]; [|discriminate H]. rewrite bind_ok in H.
  apply bind_inr in H as (hv & _ & H). apply bind_inr in H as (n & _ & H).
  destruct (py_bool n) eqn:Hn.
  - by injection H as <-.
  - apply bind_inr in H as (? & _ & H). apply bind_inr in H as (? & _ & H).
    apply bind_inr in H as ([] & _ & H).
    do 13 (apply bind_inr in H as (? & _ & H)).
    injection H as <-. discriminate Hc.
Qed.

Lemma estimate_attempt_events c wid name cm r :
  Yield r ∈ events (estimate_attempt c wid name cm) ->
  has_key "subWorkflowId" cm = false /\ attempt_record c name cm = inr r.
Proof.
  unfold estimate_attempt. destruct (has_key "subWorkflowId" cm).
  { by intros H%elem_of_nil. }
  destruct (attempt_record c name cm) as [[]|r']; cbn;
    rewrite ?list_elem_of_singleton; try (by intros H%elem_of_nil); try done.
  by intros [= ->].
Qed.

Lemma yielded_attempt c wid cs r :
  r ∈ yielded (estimate_workflow_cost c wid {| calls := Some cs |}) ->
  exists name l cm,
    (name, l) ∈ cs /\ cm ∈ l /\ has_key "subWorkflowId" cm = false
    /\ attempt_record c name cm = inr r.
Proof.
  rewrite yielded_elem. unfold estimate_workflow_cost. cbn [calls].
  intros ([name l] & Hin & Hev)%run_for_events.
  apply run_for_events in Hev as (cm & Hcm & Hev).
  apply estimate_attempt_events in Hev as [Hs Hr].
  by exists name, l, cm.
Qed.

(** X8.  Every record that the run over a workflow yields was produced for
    one attempt of that workflow that is no sub-workflow reference, and its
    task name is the second dot-separated component of the call name under
    which the attempt is listed. *)
Theorem record_origin (c : costs) (wid : string) (cs : list (string * list dict))
    (r : cost_record) :
  r ∈ yielded (estimate_workflow_cost c wid {| calls := Some cs |}) ->
  exists name l cm,
    (name, l) ∈ cs /\ cm ∈ l /\ has_key "subWorkflowId" cm = false
    /\ attempt_record c name cm = inr r
    /\ task_of name = Some (task_name r).
Proof.
  intros (name & l & cm & Hin & Hcm & Hs & Hr)%yielded_attempt.
  exists name, l, cm. repeat split; try done. by apply (attempt_record_task c name cm).
Qed.

Lemma record_origin_witness :
  exists name l cm,
    (name, l) ∈ sample.mixed_calls /\ cm ∈ l /\ has_key "subWorkflowId" cm = false
    /\ attempt_record sample.prices name cm = inr (cached_record "sort")
    /\ task_of name = Some (task_name (cached_record "sort")).
Proof.
  apply (record_origin sample.prices "wf" sample.mixed_calls (cached_record "sort")).
  vm_compute. by left.
Defined.

(** X9.  The fields of every yielded record agree with each other: a
    record marked as cached is the all-zero record of its task, with
    machine type ["NA"]; a record not marked as cached carries the CPU
    count and the memory that [_parse_machine_type] gives for its machine
    type, a CPU count that is not negative, and as cost the sum of an
    instance price and a disk price computed from its own CPU, memory,
    disk and duration fields. *)
Theorem record_fields_agree (c : costs) (wid : string) (cs : list (string * list dict))
    (r : cost_record) :
  r ∈ yielded (estimate_workflow_cost c wid {| calls := Some cs |}) ->
  (0 <= number_of_cpus r)%Z
  /\ (call_cached r = true -> r = cached_record (task_name r))
  /\ (call_cached r = false ->
      _parse_machine_type (machine_type r) = inr (number_of_cpus r, memory r)
      /\ exists cpuplatform disks preemptible,
           cost r
           = Float.add
               (instance_cost c cpuplatform (number_of_cpus r) (memory r)
                  (duration r) preemptible)
               (disk_cost c disks (disk r) (duration r))
           /\ disk_size disks = inr (disk r)).
Proof.
  intros (name & l & cm & _ & _ & _ & Hr)%yielded_attempt.
  destruct (call_cached r) eqn:Hc.
  - pose proof (attempt_record_cached_inv c name cm r Hr Hc) as E.
    split; [by rewrite E|]. split; [done|discriminate].
  - destruct (attempt_record_not_cached_inv c name cm r Hr Hc)
      as (task & v & _ & _ & Hv & ->).
    destruct Hv as (_ & Hparse & _ & _ & _ & _ & _ & Hsize & _).
    cbn [record_of number_of_cpus machine_type memory cost disk duration].
    split; [by apply (parse_cpus_nonneg _ _ _ Hparse)|].
    split; [discriminate|]. intros _. split; [done|].
    by exists (read_cpuplatform v), (read_disk_description v),
      (py_bool (read_preemptible v)).
Qed.

Lemma record_fields_agree_witness :
  (0 <= number_of_cpus (record_of sample.prices "sort" sample.done_reads))%Z
  /\ _parse_machine_type (machine_type (record_of sample.prices "sort" sample.done_reads))
     = inr (4%Z, Finite 15).
Proof.
  assert (record_of sample.prices "sort" sample.done_reads
          ∈ yielded (estimate_workflow_cost sample.prices "wf"
                       {| calls := Some sample.mixed_calls |})) as Hin.
  { vm_compute. right. left. }
  destruct (record_fields_agree sample.prices "wf" sample.mixed_calls _ Hin)
    as (Hcpus & _ & Hfields).
  split; [exact Hcpus|]. exact (proj1 (Hfields eq_refl)).
Defined.

(** X10.  For every call attempt that is not cached and yields a record,
    with [cp] the value that [js_get] gives for the CPU platform, the
    empty string being its default: the instance price in the cost of the
    record comes from the N2 price function when [cp] is the string
    ["Intel Cascade Lake"] or ["AMD Rome"], and from the N1 price function
    for any other value; both are called with the CPU count, the memory
    and the duration of the record and the preemptible flag. *)
Theorem instance_price_by_platform (c : costs) (wid name : string) (cm : dict)
    (r : cost_record) :
  estimate_attempt c wid name cm = run_emit (Yield r) ->
  call_cached r = false ->
  exists cp p dd,
    utils.js_get "runtimeAttributes.cpuPlatform" cm (Some (JStr "")) = inr cp
    /\ preemptible_flag cm = inr p
    /\ disk_descriptor cm = inr (JStr dd)
    /\ (cp = JStr "Intel Cascade Lake" \/ cp = JStr "AMD Rome" ->
        cost r
        = Float.add
            (GCPCustomN2Cost_estimate c (number_of_cpus r) (memory r) (duration r)
               (py_bool p))
            (disk_cost c dd (disk r) (duration r)))
    /\ (cp <> JStr "Intel Cascade Lake" -> cp <> JStr "AMD Rome" ->
        cost r
        = Float.add
            (GCPCustomN1Cost_estimate c (number_of_cpus r) (memory r) (duration r)
               (py_bool p))
            (disk_cost c dd (disk r) (duration r))).
Proof.
  intros Hr Hnc.
  apply estimate_attempt_yield_inv in Hr as [Hsub Hr].
  apply attempt_record_not_cached_inv in Hr as (task & v & Ht & Hhit & Hv & ->); [|done].
  destruct Hv as (_ & _ & _ & _ & Hpre & _ & Hdd & _ & Hcp).
  exists (read_cpuplatform v), (read_preemptible v), (read_disk_description v).
  unfold record_of; cbn [disk cost number_of_cpus memory duration].
  split; [exact Hcp|]. split; [exact Hpre|]. split; [exact Hdd|].
  unfold instance_cost. split.
  - intros [E|E]; apply eq_str_spec in E; rewrite E; [done|]. by rewrite orb_true_r.
  - intros H1 H2.
    destruct (eq_str (read_cpuplatform v) "Intel Cascade Lake") eqn:E1.
    { by apply eq_str_spec in E1. }
    destruct (eq_str (read_cpuplatform v) "AMD Rome") eqn:E2.
    { by apply eq_str_spec in E2. }
    done.
Qed.

Lemma instance_price_by_platform_witness :
  exists cp p dd,
    utils.js_get "runtimeAttributes.cpuPlatform" sample.cascade_lake_attempt
      (Some (JStr "")) = inr cp
    /\ preemptible_flag sample.cascade_lake_attempt = inr p
    /\ disk_descriptor sample.cascade_lake_attempt = inr (JStr dd)
    /\ cp = JStr "Intel Cascade Lake"
    /\ Float.add (Finite 20) (Finite 1)
       = Float.add
           (GCPCustomN2Cost_estimate sample.prices 4 (Finite 15) (Finite (7201 # 2))
              (py_bool p))
           (disk_cost sample.prices dd (Finite 1) (Finite (7201 # 2))).
Proof.
  destruct (instance_price_by_platform sample.prices "wf" "Align.sort"
              sample.cascade_lake_attempt
              {| task_name := "sort"; cost := Float.add (Finite 20) (Finite 1);
                 number_of_cpus := 4; memory := Finite 15; disk := Finite 1;
                 duration := Finite (7201 # 2); call_cached := false;
                 preempted := PyStr "NA"; machine_type := "custom-4-15360" |}
              eq_refl eq_refl)
    as (cp & p & dd & Hcp & Hp & Hdd & Hn2 & _).
  exists cp, p, dd. repeat split; try done.
  - vm_compute in Hcp. by injection Hcp as <-.
  - apply Hn2. left. vm_compute in Hcp. by injection Hcp as <-.
Defined.

Section machine_types.
Variable c : costs.

Lemma attempt_record_parse_error name cm task mt e :
  task_of name = Some task -> cache_hit cm = inr 0%Z ->
  utils.js_get "jes.machineType" cm None = inr (JStr mt) ->
  _parse_machine_type mt = inl e ->
  attempt_record c name cm = inl e.
Proof.
  intros Ht Hhit Hmt Hparse. unfold attempt_record.
  rewrite task_index, Ht, bind_ok.
  apply bind_inr in Hhit as (hv & E1 & E2). read_with E1. read_with E2.
  change (py_bool 0) with false. cbv iota.
  read_with Hmt. change (str_method (JStr ?s)) with (@inr exn _ s).
  rewrite bind_ok. by rewrite Hparse, bind_raise.
Qed.

Lemma attempt_record_not_a_string name cm task v :
  task_of name = Some task -> cache_hit cm = inr 0%Z ->
  utils.js_get "jes.machineType" cm None = inr v ->
  (forall s, v <> JStr s) ->
  attempt_record c name cm = inl AttributeError.
Proof.
  intros Ht Hhit Hmt Hv. unfold attempt_record.
  rewrite task_index, Ht, bind_ok.
  apply bind_inr in Hhit as (hv & E1 & E2). read_with E1. read_with E2.
  change (py_bool 0) with false. cbv iota.
  read_with Hmt. destruct v; try reflexivity. exfalso. by eapply Hv.
Qed.

End machine_types.

(** X11.  For a call attempt that is not cached and whose machine type is
    a string that [_parse_machine_type] rejects, the rejection is a
    [TNUCostException] and the attempt is skipped with the warning that
    carries its message: nothing else of the attempt is read, so that
    neither a missing field nor a malformed timestamp can end the run
    there. *)
Theorem unparseable_machine_type_is_skipped (c : costs) (wid name task : string)
    (cm : dict) (mt : string) (e : exn) :
  has_key "subWorkflowId" cm = false ->
  task_of name = Some task -> cache_hit cm = inr 0%Z ->
  utils.js_get "jes.machineType" cm None = inr (JStr mt) ->
  _parse_machine_type mt = inl e ->
  exists msg,
    e = TNUCostException msg
    /\ estimate_attempt c wid name cm = run_emit (Warning (warning_text wid msg)).
Proof.
  intros Hsub Ht Hhit Hmt Hparse.
  destruct (parse_machine_type_fails mt) as [msg Hmsg]; [intros n x; congruence|].
  assert (e = TNUCostException msg) as -> by congruence.
  exists msg. split; [done|].
  apply (estimate_attempt_caught c wid name cm (TNUCostException msg)); [done | | done].
  by apply (attempt_record_parse_error c name cm task mt).
Qed.

Lemma unparseable_machine_type_is_skipped_witness :
  exists msg,
    TNUCostException
      ("Cannot estimate costs for machine type 'n1-standard-4'"
       +:+ "Please contact terra-notebook-utils maintainers to add support")
    = TNUCostException msg
    /\ estimate_attempt sample.prices "wf" "Align.sort" sample.standard_machine_attempt
       = run_emit (Warning (warning_text "wf" msg)).
Proof.
  exact (unparseable_machine_type_is_skipped sample.prices "wf" "Align.sort" "sort"
           sample.standard_machine_attempt "n1-standard-4" _
           eq_refl eq_refl eq_refl eq_refl eq_refl).
Defined.

(** X12.  For a call attempt that is not cached and whose machine type is
    present but no string, the call of [replace] on it raises
    [AttributeError], which the [except] clause does not catch: the run
    ends there. *)
Theorem machine_type_not_a_string_ends_run (c : costs) (wid name task : string)
    (cm : dict) (v : json) :
  has_key "subWorkflowId" cm = false ->
  task_of name = Some task -> cache_hit cm = inr 0%Z ->
  utils.js_get "jes.machineType" cm None = inr v ->
  (forall s, v <> JStr s) ->
  estimate_attempt c wid name cm = run_raise AttributeError
  /\ forall before l1 l2 after,
       estimate_workflow_cost c wid
         {| calls := Some (before ++ (name, l1 ++ cm :: l2) :: after) |}
       = run_seq
           (estimate_workflow_cost c wid {| calls := Some (before ++ [(name, l1)]) |})
           (run_raise AttributeError).
Proof.
  intros Hsub Ht Hhit Hmt Hv.
  assert (estimate_attempt c wid name cm = run_raise AttributeError) as E.
  { apply estimate_attempt_uncaught; [done | | done].
    by apply (attempt_record_not_a_string c name cm task v). }
  split; [exact E|]. intros. rewrite estimate_workflow_cost_at, E. by destruct (estimate_workflow_cost c wid {| calls := Some (before ++ [(name, l1)]) |}) as [ev [e|]].
Qed.

Lemma machine_type_not_a_string_ends_run_witness :
  estimate_attempt sample.prices "wf" "Align.sort" sample.numeric_machine_attempt
  = run_raise AttributeError.
Proof.
  apply (machine_type_not_a_string_ends_run sample.prices "wf" "Align.sort" "sort"
           sample.numeric_machine_attempt (JInt 4));
    [reflexivity | reflexivity | reflexivity | reflexivity | discriminate].
Defined.

(** ** The memoized fetchers *)

Section fetch_failures.
Variable fapi : service.

Lemma get_workflow_body_sends sid wid ws ns w :
  (get_workflow_body fapi (sid, wid, ws, ns) w).2
  = send (GetWorkflowMetadata ns ws sid wid) w.
Proof. reflexivity. Qed.

Lemma get_submission_body_sends sid ws ns w :
  (get_submission_body fapi (sid, ws, ns) w).2 = send (GetSubmission ns ws sid) w.
Proof. reflexivity. Qed.

Lemma get_workflow_miss key w :
  functools.find key (workflow_cache w) = None ->
  sent (get_workflow fapi key w).2 = sent w ++ [request_of (CallGetWorkflow key)].
Proof.
  intros Hf. unfold get_workflow, functools.lru_cache. rewrite Hf.
  destruct key as [[[sid wid] ws] ns].
  pose proof (get_workflow_body_sends sid wid ws ns w) as Hs.
  destruct (get_workflow_body fapi (sid, wid, ws, ns) w) as [[e|v] w'];
    cbn [snd] in *; by rewrite Hs.
Qed.

Lemma get_submission_miss key w :
  functools.find key (submission_cache w) = None ->
  sent (get_submission fapi key w).2 = sent w ++ [request_of (CallGetSubmission key)].
Proof.
  intros Hf. unfold get_submission, functools.lru_cache. rewrite Hf.
  destruct key as [[sid ws] ns].
  pose proof (get_submission_body_sends sid ws ns w) as Hs.
  destruct (get_submission_body fapi (sid, ws, ns) w) as [[e|v] w'];
    cbn [snd] in *; by rewrite Hs.
Qed.

Lemma get_workflow_raises key w e w' :
  get_workflow fapi key w = (inl e, w') ->
  functools.find key (workflow_cache w) = None
  /\ get_workflow_body fapi key w = (inl e, w')
  /\ w' = send (request_of (CallGetWorkflow key)) w.
Proof.
  unfold get_workflow, functools.lru_cache.
  destruct (functools.find key (workflow_cache w)) as [v|]; [discriminate|].
  destruct (get_workflow_body fapi key w) as [[e0|v] w0] eqn:Hb; [|discriminate].
  intros [= <- <-]. split; [done|]. split; [done|].
  destruct key as [[[sid wid] ws] ns].
  pose proof (get_workflow_body_sends sid wid ws ns w) as Hs. by rewrite Hb in Hs.
Qed.

Lemma get_submission_raises key w e w' :
  get_submission fapi key w = (inl e, w') ->
  functools.find key (submission_cache w) = None
  /\ get_submission_body fapi key w = (inl e, w')
  /\ w' = send (request_of (CallGetSubmission key)) w.
Proof.
  unfold get_submission, functools.lru_cache.
  destruct (functools.find key (submission_cache w)) as [v|]; [discriminate|].
  destruct (get_submission_body fapi key w) as [[e0|v] w0] eqn:Hb; [|discriminate].
  intros [= <- <-]. split; [done|]. split; [done|].
  destruct key as [[sid ws] ns].
  pose proof (get_submission_body_sends sid ws ns w) as Hs. by rewrite Hb in Hs.
Qed.

End fetch_failures.

(** X13.  A failure is not memoized.  When [get_workflow] or
    [get_submission] raises, whatever raised the exception, the call of
    the service, [raise_for_status] or the decoding of the body, the
    arguments were not in the cache, the exception is that of the function
    body, one request has been made and both caches are as before, so
    that the next call with the same arguments makes the request again. *)
Theorem failed_fetch_is_not_memoized (fapi : service) (w w' : world) (e : exn) :
  (forall key,
     get_workflow fapi key w = (inl e, w') ->
     functools.find key (workflow_cache w) = None
     /\ get_workflow_body fapi key w = (inl e, w')
     /\ w' = send (request_of (CallGetWorkflow key)) w
     /\ sent (get_workflow fapi key w').2
        = sent w ++ [request_of (CallGetWorkflow key); request_of (CallGetWorkflow key)])
  /\ (forall key,
        get_submission fapi key w = (inl e, w') ->
        functools.find key (submission_cache w) = None
        /\ get_submission_body fapi key w = (inl e, w')
        /\ w' = send (request_of (CallGetSubmission key)) w
        /\ sent (get_submission fapi key w').2
           = sent w ++ [request_of (CallGetSubmission key);
                        request_of (CallGetSubmission key)]).
Proof.
  split; intros key H.
  - apply get_workflow_raises in H as (Hf & Hb & ->). repeat split; try done.
    rewrite get_workflow_miss; [|done]. cbn [sent send]. by rewrite <- app_assoc.
  - apply get_submission_raises in H as (Hf & Hb & ->). repeat split; try done.
    rewrite get_submission_miss; [|done]. cbn [sent send]. by rewrite <- app_assoc.
Qed.

Lemma failed_fetch_is_not_memoized_witness :
  let key := ("s", "Z", Some "ws", Some "ns") in
  let req := GetWorkflowMetadata (Some "ns") (Some "ws") "s" "Z" in
  get_workflow sample.tree_service key fresh = (inl (HTTPError 404), send req fresh)
  /\ sent (get_workflow sample.tree_service key (send req fresh)).2 = [req; req].
Proof.
  split; [reflexivity|].
  exact (proj2 (proj2 (proj2 (proj1 (failed_fetch_is_not_memoized sample.tree_service fresh
                                       (send (GetWorkflowMetadata (Some "ns") (Some "ws")
                                                "s" "Z") fresh)
                                       (HTTPError 404))
                                ("s", "Z", Some "ws", Some "ns") eq_refl)))).
Defined.

Example garbled_answer_is_not_memoized :
  let key := sample.numbered_key 0 in
  let w1 := (get_workflow sample.garbled_once_service key fresh).2 in
  let w2 := (get_workflow sample.garbled_once_service key w1).2 in
  (get_workflow sample.garbled_once_service key fresh).1 = inl ValueError
  /\ (get_workflow sample.garbled_once_service key w1).1 = inr {| calls := Some [] |}
  /\ length (sent w1) = 1 /\ length (sent w2) = 2
  /\ sent (get_workflow sample.garbled_once_service key w2).2 = sent w2.
Proof. repeat split; reflexivity. Qed.

Section cache_bounds.
Context {K V : Type} `{EqDecision K}.

Lemma remove_length (k : K) (v : V) c :
  functools.find k c = Some v -> S (length (functools.remove k c)) = length c.
Proof.
  induction c as [|[k' v'] c IH]; [discriminate|]. cbn.
  destruct (decide (k = k')); [done|]. intros Hf. cbn. by rewrite IH.
Qed.

Lemma touch_length (k : K) (v : V) c :
  functools.find k c = Some v -> length (functools.touch k v c) = length c.
Proof. intros Hf. unfold functools.touch. cbn. by apply (remove_length k v). Qed.

Lemma store_length (k : K) (v : V) c :
  length (functools.store k v c) <= functools.maxsize.
Proof. unfold functools.store. rewrite length_take. lia. Qed.

Lemma store_keys (k : K) (v : V) c x :
  x ∈ (functools.store k v c).*1 -> x = k \/ x ∈ c.*1.
Proof.
  unfold functools.store. rewrite fmap_take. intros Hx%subseteq_take.
  cbn in Hx. by apply elem_of_cons in Hx.
Qed.

Context {S : Type}.
Variables (get : S -> list (K * V)) (set : list (K * V) -> S -> S)
          (body : K -> S -> result V * S).
Hypothesis get_set : forall c s, get (set c s) = c.
Hypothesis body_frame : forall k s, get (body k s).2 = get s.

Lemma lru_cache_length k s :
  length (get s) <= functools.maxsize ->
  length (get (functools.lru_cache get set body k s).2) <= functools.maxsize.
Proof.
  intros Hlen.
  destruct (lru_cache_cases get set body body_frame k s)
    as [(v & Hf & ->)|[(v & s' & Hf & Hb & ->)|(e & s' & Hf & Hb & ->)]]; cbn [snd].
  - by rewrite get_set, touch_length.
  - rewrite get_set. apply store_length.
  - pose proof (body_frame k s) as Hfr. rewrite Hb in Hfr. cbn [snd] in Hfr. by rewrite Hfr.
Qed.

Lemma lru_cache_keys k s x :
  x ∈ (get (functools.lru_cache get set body k s).2).*1 -> x = k \/ x ∈ (get s).*1.
Proof.
  destruct (lru_cache_cases get set body body_frame k s)
    as [(v & Hf & ->)|[(v & s' & Hf & Hb & ->)|(e & s' & Hf & Hb & ->)]]; cbn [snd].
  - rewrite get_set. unfold functools.touch. cbn.
    intros [->|Hx]%elem_of_cons; [by left|]. right. by apply (remove_keys k).
  - rewrite get_set. apply store_keys.
  - pose proof (body_frame k s) as Hfr. rewrite Hb in Hfr. cbn [snd] in Hfr.
    rewrite Hfr. by right.
Qed.

End cache_bounds.

Section reachable_states.
Variable fapi : service.

Lemma after_call_length cl w :
  length (workflow_cache w) <= functools.maxsize
  /\ length (submission_cache w) <= functools.maxsize ->
  length (workflow_cache (after_call fapi cl w)) <= functools.maxsize
  /\ length (submission_cache (after_call fapi cl w)) <= functools.maxsize.
Proof.
  intros [Hw Hs]. destruct cl as [key|key]; cbn [after_call].
  - rewrite get_submission_workflow_cache. split; [done|].
    by apply (lru_cache_length submission_cache set_submission_cache);
      [done | apply get_submission_body_frame |].
  - rewrite get_workflow_submission_cache. split; [|done].
    by apply (lru_cache_length workflow_cache set_workflow_cache);
      [done | apply get_workflow_body_frame |].
Qed.

Lemma after_calls_length cls w :
  length (workflow_cache w) <= functools.maxsize
  /\ length (submission_cache w) <= functools.maxsize ->
  length (workflow_cache (after_calls fapi cls w)) <= functools.maxsize
  /\ length (submission_cache (after_calls fapi cls w)) <= functools.maxsize.
Proof.
  revert w. induction cls as [|cl cls IH]; intros w Hw; [done|].
  cbn. by apply IH, after_call_length.
Qed.

Lemma after_calls_keys cls w :
  (forall k, k ∈ (workflow_cache (after_calls fapi cls w)).*1 ->
     k ∈ workflow_keys cls \/ k ∈ (workflow_cache w).*1)
  /\ (forall k, k ∈ (submission_cache (after_calls fapi cls w)).*1 ->
        k ∈ submission_keys cls \/ k ∈ (submission_cache w).*1).
Proof.
  revert w. induction cls as [|cl cls IH]; intros w; [split; intros k Hk; by right|].
  destruct (IH (after_call fapi cl w)) as [IHw IHs].
  change (after_calls fapi (cl :: cls) w) with (after_calls fapi cls (after_call fapi cl w)).
  split; intros k Hk.
  - apply IHw in Hk as [Hk|Hk].
    + left. destruct cl; cbn; [done | by right].
    + destruct cl as [key|key]; cbn [after_call] in Hk.
      * rewrite get_submission_workflow_cache in Hk. by right.
      * apply (lru_cache_keys workflow_cache set_workflow_cache) in Hk as [->|Hk];
          [left; cbn; by left | by right | done | apply get_workflow_body_frame].
  - apply IHs in Hk as [Hk|Hk].
    + left. destruct cl; cbn; [by right | done].
    + destruct cl as [key|key]; cbn [after_call] in Hk.
      * apply (lru_cache_keys submission_cache set_submission_cache) in Hk as [->|Hk];
          [left; cbn; by left | by right | done | apply get_submission_body_frame].
      * rewrite get_workflow_submission_cache in Hk. by right.
Qed.

Lemma after_call_sent cl w :
  sent (after_call fapi cl w) = sent w
  \/ sent (after_call fapi cl w) = sent w ++ [request_of cl].
Proof.
  destruct cl as [key|key]; cbn [after_call].
  - destruct (functools.find key (submission_cache w)) as [v|] eqn:Hf.
    + left. unfold get_submission, functools.lru_cache. by rewrite Hf.
    + right. by apply get_submission_miss.
  - destruct (functools.find key (workflow_cache w)) as [v|] eqn:Hf.
    + left. unfold get_workflow, functools.lru_cache. by rewrite Hf.
    + right. by apply get_workflow_miss.
Qed.

Lemma after_calls_sent cls w :
  exists reqs,
    sent (after_calls fapi cls w) = sent w ++ reqs
    /\ reqs `sublist_of` (request_of <$> cls).
Proof.
  revert w. induction cls as [|cl cls IH]; intros w.
  { exists []. split; [by rewrite app_nil_r | constructor]. }
  change (after_calls fapi (cl :: cls) w) with (after_calls fapi cls (after_call fapi cl w)).
  destruct (IH (after_call fapi cl w)) as (reqs & -> & Hsub).
  destruct (after_call_sent cl w) as [->| ->].
  - exists reqs. split; [done|]. rewrite fmap_cons. by apply sublist_cons.
  - exists (request_of cl :: reqs). split; [by rewrite <- app_assoc|].
    rewrite fmap_cons. by apply sublist_skip.
Qed.

End reachable_states.

(** X14.  In every state that a process reaches by calls of
    [get_submission] and [get_workflow], each of the two caches holds at
    most 128 entries, no argument tuple twice, and only argument tuples
    with which its function has been called. *)
Theorem caches_stay_bounded (fapi : service) (cls : list call) :
  let w := after_calls fapi cls fresh in
  (length (workflow_cache w) <= 128
   /\ NoDup (workflow_cache w).*1
   /\ (workflow_cache w).*1 ⊆ workflow_keys cls)
  /\ (length (submission_cache w) <= 128
      /\ NoDup (submission_cache w).*1
      /\ (submission_cache w).*1 ⊆ submission_keys cls).
Proof.
  cbn zeta.
  destruct (after_calls_length fapi cls fresh) as [Lw Ls]; [cbn; lia|].
  destruct (after_calls_fresh_NoDup fapi cls) as [Nw Ns].
  destruct (after_calls_keys fapi cls fresh) as [Kw Ks].
  repeat split; try done.
  - intros k Hk. apply Kw in Hk as [Hk|Hk]; [done | by apply elem_of_nil in Hk].
  - intros k Hk. apply Ks in Hk as [Hk|Hk]; [done | by apply elem_of_nil in Hk].
Qed.

Example caches_after_many_calls :
  let w := after_calls sample.quiet_service (sample.numbered_calls 200) fresh in
  length (workflow_cache w) = 128 /\ length (sent w) = 200.
Proof. vm_compute. split; reflexivity. Qed.

(** X15.  The memoized functions send no request of their own accord: the
    requests that a sequence of calls adds to those sent before are, in
    order, the requests of some of these calls, at most one for each
    call. *)
Theorem requests_come_from_calls (fapi : service) (cls : list call) (w : world) :
  exists reqs,
    sent (after_calls fapi cls w) = sent w ++ reqs
    /\ reqs `sublist_of` (request_of <$> cls)
    /\ length reqs <= length cls.
Proof.
  destruct (after_calls_sent fapi cls w) as (reqs & Hs & Hsub).
  exists reqs. split; [done|]. split; [done|].
  apply sublist_length in Hsub. by rewrite length_fmap in Hsub.
Qed.

(** ** Discovery and estimation *)

Lemma id_set_strings key l X d v :
  id_set key l = inr X -> d ∈ l -> dict_get key d = Some v ->
  exists x, v = JStr x /\ x ∈ X.
Proof.
  intros HX Hd Hv.
  assert (exists x, v = JStr x) as [x ->].
  { revert X HX. induction l as [|d' l IH]; intros X HX; [by apply elem_of_nil in Hd|].
    cbn in HX. apply elem_of_cons in Hd as [<-|Hd].
    - rewrite Hv in HX. apply bind_inr in HX as (i & Hi & _).
      destruct v; try discriminate Hi. by eexists.
    - destruct (dict_get key d') as [v'|]; [|by apply (IH Hd X)].
      apply bind_inr in HX as (i & _ & HX). apply bind_inr in HX as (X' & HX' & _).
      by apply (IH Hd X'). }
  exists x. split; [done|]. apply (id_set_spec key l X HX). by exists d.
Qed.

(** X16.  The estimator and the discoverer divide the attempts of a
    workflow between them.  When the sub-workflow references of a workflow
    can be collected, as [get_all_workflows] does, an attempt contributes
    nothing to the run of [estimate_workflow_cost], neither a record nor a
    warning nor an exception, exactly when it holds one of the references
    collected, and every reference collected is held by such an attempt. *)
Theorem skipped_attempts_are_references (c : costs) (wid : string)
    (cs : list (string * list dict)) (found : gset string) :
  subworkflows {| calls := Some cs |} = inr found ->
  (forall name l cm,
     (name, l) ∈ cs -> cm ∈ l ->
     estimate_attempt c wid name cm = run_done
     <-> exists x, x ∈ found /\ dict_get "subWorkflowId" cm = Some (JStr x))
  /\ (forall x,
        x ∈ found ->
        exists name l cm,
          (name, l) ∈ cs /\ cm ∈ l
          /\ dict_get "subWorkflowId" cm = Some (JStr x)
          /\ estimate_attempt c wid name cm = run_done).
Proof.
  unfold subworkflows. cbn [calls]. intros Hfound. split.
  - intros name l cm Hin Hcm. split.
    + intros Hdone.
      destruct (estimate_attempt_cases c wid name cm) as [[Hs _]|[_ [[ev E]|[e E]]]];
        [|rewrite E in Hdone; discriminate Hdone..].
      unfold has_key in Hs.
      destruct (dict_get "subWorkflowId" cm) as [v|] eqn:Hv; [|discriminate Hs].
      destruct (id_set_strings _ _ _ cm v Hfound) as (x & -> & Hx); [|done|by exists x].
      apply elem_of_attempts. by exists name, l.
    + intros (x & _ & Hx). apply estimate_attempt_subworkflow.
      unfold has_key. by rewrite Hx.
  - intros x (cm & Hcm & Hx)%(id_set_spec _ _ _ Hfound).
    apply elem_of_attempts in Hcm as (name & l & Hin & Hcm).
    exists name, l, cm. repeat split; try done.
    apply estimate_attempt_subworkflow. unfold has_key. by rewrite Hx.
Qed.

Lemma skipped_attempts_are_references_witness :
  exists name l cm,
    (name, l) ∈ sample.mixed_calls /\ cm ∈ l
    /\ dict_get "subWorkflowId" cm = Some (JStr "C")
    /\ estimate_attempt sample.prices "wf" name cm = run_done.
Proof.
  apply (proj2 (skipped_attempts_are_references sample.prices "wf" sample.mixed_calls
                  {["C"]} eq_refl)).
  by apply elem_of_singleton.
Defined.

(** ** What [get_all_workflows] returns *)

Lemma reachable_mono (initial : gset string) (succ succ' : string -> gset string) x :
  (forall z, succ z ⊆ succ' z) ->
  reachable initial succ x -> reachable initial succ' x.
Proof.
  intros Hsub. induction 1 as [x Hx|x y Hx IH Hy].
  - by apply reachable_initial.
  - apply (reachable_step _ _ x); [done|]. by apply Hsub.
Qed.

Lemma recorded_succ_insert (m : gmap string workflow_metadata) x v z :
  m !! x = None -> recorded_succ m z ⊆ recorded_succ (<[x := v]> m) z.
Proof.
  intros Hx. unfold recorded_succ. destruct (decide (z = x)) as [->|Hne].
  - rewrite Hx. intros y Hy. by apply elem_of_empty in Hy.
  - by rewrite lookup_insert_ne.
Qed.

Lemma recorded_succ_lookup (m : gmap string workflow_metadata) x v found :
  m !! x = Some v -> subworkflows v = inr found -> recorded_succ m x = found.
Proof. intros Hm Hv. unfold recorded_succ. by rewrite Hm, Hv. Qed.

Section soundness.
Variables (fapi : service) (submission_id : string) (workspace namespace : option string).
Variables (w1 : world) (initial : gset string).

Let recurse := get_metadata_and_subworkflows fapi submission_id workspace namespace.

Lemma explored_expand seen x rest m w v found w' :
  explored w1 namespace workspace submission_id initial seen (x :: rest) m w ->
  x ∉ seen ->
  get_workflow fapi (submission_id, x, workspace, namespace) w = (inr v, w') ->
  subworkflows v = inr found ->
  explored w1 namespace workspace submission_id initial
    ({[x]} ∪ seen) (rest ++ elements found) (<[x := v]> m) w'.
Proof.
  intros [Hdom Hclosed Hinit Hseen Hfront Hsent] Hx Hget Hfound.
  assert (m !! x = None) as Hmx.
  { apply not_elem_of_dom. by rewrite Hdom. }
  assert (forall z, reachable initial (recorded_succ m) z ->
                    reachable initial (recorded_succ (<[x := v]> m)) z) as Hmono.
  { intros z. apply reachable_mono. intros z'. by apply recorded_succ_insert. }
  assert (reachable initial (recorded_succ (<[x := v]> m)) x) as Hrx.
  { apply Hmono, Hfront. by left. }
  split.
  - by rewrite dom_insert_L, Hdom.
  - intros z [->%elem_of_singleton|Hz]%elem_of_union.
    + exists v, found. split; [by rewrite lookup_insert_eq|]. split; [done|].
      intros y Hy. right. apply elem_of_app. right. by apply elem_of_elements.
    + destruct (Hclosed z Hz) as (vz & fz & Hmz & Hfz & Hcl).
      exists vz, fz. split.
      { rewrite lookup_insert_ne; [done|]. by intros ->. }
      split; [done|]. intros y Hy.
      destruct (Hcl y Hy) as [Hs|[->|Hr]%elem_of_cons].
      * left. apply elem_of_union. by right.
      * left. apply elem_of_union. left. by apply elem_of_singleton.
      * right. apply elem_of_app. by left.
  - intros z Hz. destruct (Hinit z Hz) as [Hs|[->|Hr]%elem_of_cons].
    + left. apply elem_of_union. by right.
    + left. apply elem_of_union. left. by apply elem_of_singleton.
    + right. apply elem_of_app. by left.
  - intros z [->%elem_of_singleton|Hz]%elem_of_union; [done|]. by apply Hmono, Hseen.
  - intros z [Hz|Hz%elem_of_elements]%elem_of_app.
    + apply Hmono, Hfront. by right.
    + apply (reachable_step _ _ x); [done|].
      rewrite (recorded_succ_lookup _ x v found); [done | by rewrite lookup_insert_eq | done].
  - destruct Hsent as (reqs & Hs & Hnd & Hreqs).
    pose proof (after_call_sent fapi
                  (CallGetWorkflow (submission_id, x, workspace, namespace)) w) as Hsend.
    cbn [after_call request_of] in Hsend. rewrite Hget in Hsend. cbn [snd] in Hsend.
    destruct Hsend as [Hsend|Hsend]; rewrite Hsend, Hs.
    + exists reqs. split; [done|]. split; [done|].
      intros r Hr. destruct (Hreqs r Hr) as (y & Hy & ->).
      exists y. split; [|done]. apply elem_of_union. by right.
    + exists (reqs ++ [GetWorkflowMetadata namespace workspace submission_id x]).
      split; [by rewrite app_assoc|]. split.
      * apply NoDup_app. split; [done|]. split; [|apply NoDup_singleton].
        intros r Hr ->%list_elem_of_singleton.
        destruct (Hreqs _ Hr) as (y & Hy & [= <-]). done.
      * intros r [Hr| ->%list_elem_of_singleton]%elem_of_app.
        -- destruct (Hreqs r Hr) as (y & Hy & ->).
           exists y. split; [|done]. apply elem_of_union. by right.
        -- exists x. split; [|done]. apply elem_of_union. left. by apply elem_of_singleton.
Qed.

Lemma explored_skip seen x rest m w :
  explored w1 namespace workspace submission_id initial seen (x :: rest) m w ->
  x ∈ seen ->
  explored w1 namespace workspace submission_id initial seen rest m w.
Proof.
  intros [Hdom Hclosed Hinit Hseen Hfront Hsent] Hx. split; try done.
  - intros z Hz. destruct (Hclosed z Hz) as (vz & fz & Hmz & Hfz & Hcl).
    exists vz, fz. split; [done|]. split; [done|]. intros y Hy.
    destruct (Hcl y Hy) as [Hs|[->|Hr]%elem_of_cons]; [by left | by left | by right].
  - intros z Hz.
    destruct (Hinit z Hz) as [Hs|[->|Hr]%elem_of_cons]; [by left | by left | by right].
  - intros z Hz. apply Hfront. by right.
Qed.

Lemma explored_ends fuel : forall seen frontier m w m' w',
  explored w1 namespace workspace submission_id initial seen frontier m w ->
  utils.concurrent_recursion_from fuel recurse seen frontier (m, w)
  = Some (inr tt, (m', w')) ->
  exists seen',
    explored w1 namespace workspace submission_id initial seen' [] m' w'.
Proof.
  induction fuel as [|fuel IH]; intros seen frontier m w m' w' Hinv; [discriminate|].
  cbn [utils.concurrent_recursion_from]. destruct frontier as [|x rest].
  { intros [= <- <-]. by exists seen. }
  destruct (decide (x ∈ seen)) as [Hx|Hx].
  { apply IH. by apply (explored_skip seen x). }
  unfold recurse at 1, get_metadata_and_subworkflows.
  destruct (get_workflow fapi (submission_id, x, workspace, namespace) w)
    as [[e|v] w''] eqn:Hget; [discriminate|].
  destruct (subworkflows v) as [e|found] eqn:Hfound; [discriminate|].
  apply IH. by apply (explored_expand seen x rest m w v found w'').
Qed.

End soundness.

(** X17.  Whatever the service answers and whatever the caches hold, a
    mapping that [get_all_workflows] returns, with the traversal of
    [concurrent_recursion] as described, holds every initial workflow of
    the submission; the metadata of each of its workflows has calls, and
    the sub-workflows these refer to are in the mapping as well; it holds
    no workflow that is not reached from the initial ones through the
    references recorded in it; and the requests for workflow metadata sent
    meanwhile are for workflows of the mapping, at most one for each. *)
Theorem get_all_workflows_sound
    (fapi : service) (fuel : nat) (submission_id : string)
    (workspace namespace : option string) (w w' : world)
    (m : gmap string workflow_metadata) :
  get_all_workflows fapi fuel submission_id workspace namespace w = Some (inr m, w') ->
  exists s w1 ids,
    get_submission fapi (submission_id, workspace, namespace) w = (inr s, w1)
    /\ initial_workflow_ids s = inr ids
    /\ ids ⊆ dom m
    /\ (forall x v, m !! x = Some v ->
          exists found, subworkflows v = inr found /\ found ⊆ dom m)
    /\ (forall x, x ∈ dom m -> reachable ids (recorded_succ m) x)
    /\ exists reqs,
         sent w' = sent w1 ++ reqs /\ NoDup reqs
         /\ forall r, r ∈ reqs ->
              exists x, x ∈ dom m
                        /\ r = GetWorkflowMetadata namespace workspace submission_id x.
Proof.
  unfold get_all_workflows, utils.concurrent_recursion.
  destruct (get_submission fapi (submission_id, workspace, namespace) w)
    as [[e|s] w1] eqn:Hsub; [discriminate|].
  destruct (initial_workflow_ids s) as [e|ids] eqn:Hids; [discriminate|].
  destruct (utils.concurrent_recursion_from _ _ _ _ _) as [[[e|[]] [m0 w0]]|] eqn:Hrun;
    try discriminate.
  intros [= -> ->]. exists s, w1, ids. split; [done|]. split; [done|].
  assert (explored w1 namespace workspace submission_id ids ∅ (elements ids) ∅ w1) as Hinv.
  { split.
    - apply dom_empty_L.
    - intros x Hx. by apply elem_of_empty in Hx.
    - intros x Hx. right. by apply elem_of_elements.
    - intros x Hx. by apply elem_of_empty in Hx.
    - intros x Hx. by apply reachable_initial, elem_of_elements.
    - exists []. split; [by rewrite app_nil_r|]. split; [constructor|].
      intros r Hr. by apply elem_of_nil in Hr. }
  destruct (explored_ends fapi submission_id workspace namespace w1 ids fuel
              ∅ (elements ids) ∅ w1 m w' Hinv Hrun)
    as (seen & [Hdom Hclosed Hinit Hseen _ Hsent]).
  rewrite Hdom. split; [|split; [|split]].
  - intros x Hx. destruct (Hinit x Hx) as [?|Hn]; [done | by apply elem_of_nil in Hn].
  - intros x v Hv.
    destruct (Hclosed x) as (v' & found & Hv' & Hfound & Hcl).
    { rewrite <- Hdom. by apply elem_of_dom. }
    assert (v' = v) as -> by congruence.
    exists found. split; [done|]. intros y Hy.
    destruct (Hcl y Hy) as [?|Hn]; [done | by apply elem_of_nil in Hn].
  - exact Hseen.
  - exact Hsent.
Qed.

Lemma get_all_workflows_sound_witness :
  exists m w',
    get_all_workflows sample.tree_service 30 "s" (Some "ws") (Some "ns") fresh
    = Some (inr m, w')
    /\ sample.tree_ids ⊆ dom m
    /\ (forall x v, m !! x = Some v ->
          exists found, subworkflows v = inr found /\ found ⊆ dom m)
    /\ (forall x, x ∈ dom m -> reachable sample.tree_ids (recorded_succ m) x).
Proof.
  eexists _, _. split; [vm_compute; reflexivity|].
  match goal with
  | |- context [dom ?m] =>
      destruct (get_all_workflows_sound sample.tree_service 30 "s" (Some "ws") (Some "ns")
                  fresh _ m ltac:(vm_compute; reflexivity))
        as (s & w1 & ids & Hsub & Hids & Hin & Hclosed & Hreach & _)
  end.
  vm_compute in Hsub. injection Hsub as <- <-.
  injection Hids as <-. by repeat split.
Defined.

(** ** The workflow identifier *)

Lemma shape_run_seq (a a' b b' : run) :
  shape a = shape a' -> shape b = shape b' ->
  shape (run_seq a b) = shape (run_seq a' b').
Proof.
  unfold shape, run_seq. intros [= Ha Hr] [= Hb Hrb]. rewrite <- Hr.
  destruct (raised a) eqn:E; cbn [events raised].
  - by rewrite Ha, E, Hr.
  - by rewrite !fmap_app, Ha, Hb, Hrb.
Qed.

Lemma shape_run_for {A} (f g : A -> run) (l : list A) :
  (forall x, shape (f x) = shape (g x)) ->
  shape (run_for f l) = shape (run_for g l).
Proof.
  intros Hfg. induction l as [|x l IH]; [done|]. cbn [run_for]. apply shape_run_seq; [apply Hfg | exact IH].
Qed.

(** X18.  The workflow identifier passed to [estimate_workflow_cost] is
    used for the texts of the warnings and for nothing else: with another
    identifier the run yields the same records, logs warnings at the same
    places and ends in the same way. *)
Theorem workflow_id_only_in_warnings (c : costs) (wid wid' : string)
    (wm : workflow_metadata) :
  shape (estimate_workflow_cost c wid wm) = shape (estimate_workflow_cost c wid' wm).
Proof.
  unfold estimate_workflow_cost. destruct (calls wm) as [cs|]; [|done].
  apply shape_run_for. intros [name l]. apply shape_run_for. intros cm.
  unfold estimate_attempt. destruct (has_key "subWorkflowId" cm); [done|].
  by destruct (attempt_record c name cm) as [[]|r].
Qed.

Example warning_names_the_workflow :
  warnings (estimate_workflow_cost sample.prices "wf-1" {| calls := Some sample.mixed_calls |})
  = ["Unable to estimate costs for workflow wf-1: 'start' not found"]
  /\ warnings (estimate_workflow_cost sample.prices "wf-2"
                 {| calls := Some sample.mixed_calls |})
     = ["Unable to estimate costs for workflow wf-2: 'start' not found"].
Proof. split; reflexivity. Qed.
